(** * Stickler: the [StateManager] FSM runner

    The class with the three-valued [StateManagerStatus]
    (src/unnamed/part_001).

    A shallow embedding of the [StateManager] class together with the part of
    the JavaScript event loop its behaviour depends on:

    - every [setTimeout(..., 0)] issued by [queueProcessing] is a pending
      macrotask; all of them run the same closure over [this], so the loop
      only has to count them ([timeouts]);
    - every [await] parks the running async function; the parked functions
      are kept in [awaiting] and are resumed one at a time by the loop;
    - a parked function whose awaited value is already settled resumes in a
      microtask, hence before any further timer callback; one that waits for
      a promise settled later (a handler awaiting I/O or a timer of its own)
      resumes in a later macrotask. *)

From Stdlib Require Import List Arith Bool Lia.
Import ListNotations.

Set Implicit Arguments.

(** ** Data model *)

Inductive StateManagerStatus : Type :=
| STOPPED
| RUNNING
| STOP_PENDING.

Definition status_eqb (x y : StateManagerStatus) : bool :=
  match x, y with
  | STOPPED, STOPPED | RUNNING, RUNNING | STOP_PENDING, STOP_PENDING => true
  | _, _ => false
  end.

(** When the value awaited by a parked function becomes available. *)
Inductive Timing : Type :=
| Microtask   (* a plain value, or a promise settled without leaving the current macrotask *)
| Macrotask.  (* a promise settled by a later macrotask *)

Section Runner.

(** [S], [A] of the class and the payload type ([any] in the source). *)
Variables State Action Data : Type.

(** What a promise of a state settles to. *)
Inductive Settled : Type :=
| Fulfilled (s : State)
| Rejected.

(** What calling a handler [(data: D) => S | Promise<S>] does. *)
Inductive Outcome : Type :=
| Throws                                  (* raises before returning *)
| Returns (t : Timing) (r : Settled).     (* a value, or a promise *)

Definition Transition : Type := Data -> Outcome.
Definition TransitionMap : Type := Action -> option Transition.
Definition StateMap : Type := State -> TransitionMap.

Record QueuedAction : Type := mkQueued { action : Action; data : Data }.

(** An async function parked at an [await]. *)
Inductive Awaiting : Type :=
| AwaitTransition (t : Timing) (r : Settled)
    (* [process] at [await transition(action.data)]; the timer callback
       that called it waits behind it at [await this.process()] *)
| AwaitProcess (ok : bool).
    (* the timer callback at [await this.process()], [process] having
       returned ([true]) or thrown ([false]) *)

(** What an outside observer can see happen. *)
Inductive Obs : Type :=
| Invoked (s : State) (q : QueuedAction)  (* handler of state [s] called on [q] *)
| Adopted (s : State)                     (* [this.currentState = s] *)
| StopResolved (k : nat)                  (* the [resolve] of stop call [k] invoked *)
| UnhandledRejection                      (* a timer callback's promise rejected *)
| CalledUndefined.                        (* [this.stopCallback!()] on [undefined] *)

Record StateManager : Type := mkManager {
  currentState : State;
  actionQueue : list QueuedAction;
  status : StateManagerStatus;
  stopCallback : option nat;
  queuedProcessing : option nat;
  (* the event loop *)
  timeouts : nat;
  awaiting : list Awaiting;
  log : list Obs
}.

(** The transition table is fixed at construction. *)
Variable states : StateMap.

(** [constructor(states, initialState)] *)
Definition new (initialState : State) : StateManager :=
  {| currentState := initialState;
     actionQueue := [];
     status := STOPPED;
     stopCallback := None;
     queuedProcessing := None;
     timeouts := 0;
     awaiting := [];
     log := [] |}.

Definition getCurrentState (m : StateManager) : State := currentState m.

(** *** Field updates *)

Definition set_currentState (s : State) (m : StateManager) : StateManager :=
  mkManager s (actionQueue m) (status m) (stopCallback m)
            (queuedProcessing m) (timeouts m) (awaiting m) (log m).

Definition set_actionQueue (q : list QueuedAction) (m : StateManager) : StateManager :=
  mkManager (currentState m) q (status m) (stopCallback m)
            (queuedProcessing m) (timeouts m) (awaiting m) (log m).

Definition set_status (st : StateManagerStatus) (m : StateManager) : StateManager :=
  mkManager (currentState m) (actionQueue m) st (stopCallback m)
            (queuedProcessing m) (timeouts m) (awaiting m) (log m).

Definition set_stopCallback (k : option nat) (m : StateManager) : StateManager :=
  mkManager (currentState m) (actionQueue m) (status m) k
            (queuedProcessing m) (timeouts m) (awaiting m) (log m).

Definition set_queuedProcessing (h : option nat) (m : StateManager) : StateManager :=
  mkManager (currentState m) (actionQueue m) (status m) (stopCallback m)
            h (timeouts m) (awaiting m) (log m).

Definition set_timeouts (n : nat) (m : StateManager) : StateManager :=
  mkManager (currentState m) (actionQueue m) (status m) (stopCallback m)
            (queuedProcessing m) n (awaiting m) (log m).

Definition set_awaiting (w : list Awaiting) (m : StateManager) : StateManager :=
  mkManager (currentState m) (actionQueue m) (status m) (stopCallback m)
            (queuedProcessing m) (timeouts m) w (log m).

Definition observe (o : Obs) (m : StateManager) : StateManager :=
  mkManager (currentState m) (actionQueue m) (status m) (stopCallback m)
            (queuedProcessing m) (timeouts m) (awaiting m) (log m ++ [o]).

Definition park (w : Awaiting) (m : StateManager) : StateManager :=
  set_awaiting (awaiting m ++ [w]) m.

(** ** The methods *)

(** [queueProcessing()], up to and including the call of [setTimeout].
    The handle [setTimeout] returns is dropped: nothing writes
    [queuedProcessing] here. *)
Definition queueProcessing (m : StateManager) : StateManager :=
  match queuedProcessing m with
  | Some _ => m
  | None => set_timeouts (S (timeouts m)) m
  end.

(** [pushAction(action, data)] *)
Definition pushAction (a : Action) (d : Data) (m : StateManager) : StateManager :=
  let m := set_actionQueue (actionQueue m ++ [mkQueued a d]) m in
  if status_eqb (status m) RUNNING then queueProcessing m else m.

(** [start()] *)
Definition start (m : StateManager) : StateManager :=
  if status_eqb (status m) STOPPED
  then queueProcessing (set_status RUNNING m)
  else m.

(** [stop()]; [k] names the [resolve] of the promise this call returns. *)
Definition stop (k : nat) (m : StateManager) : StateManager :=
  queueProcessing (set_stopCallback (Some k) (set_status STOP_PENDING m)).

(** [process()], up to its first [await] or its return: the manager it
    leaves, and what the timer callback that called it is now parked on. *)
Definition process (m : StateManager) : StateManager * Awaiting :=
  match actionQueue m with
  | [] => (m, AwaitProcess true)
  | q :: rest =>
      let m := set_actionQueue rest m in
      match states (currentState m) (action q) with
      | None => (m, AwaitProcess true)
      | Some transition =>
          let m := observe (Invoked (currentState m) q) m in
          match transition (data q) with
          | Throws => (m, AwaitProcess false)
          | Returns t r => (m, AwaitTransition t r)
          end
      end
  end.

(** The callback given to [setTimeout], up to its first [await] or its
    return. *)
Definition tick (m : StateManager) : StateManager :=
  let m := set_queuedProcessing None m in
  if status_eqb (status m) STOP_PENDING then
    let m := set_status STOPPED m in
    match stopCallback m with
    | Some k => set_stopCallback None (observe (StopResolved k) m)
    | None => observe CalledUndefined m
    end
  else
    let (m, w) := process m in park w m.

(** [l] without its [i]-th element. *)
Fixpoint drop_nth {X : Type} (i : nat) (l : list X) : list X :=
  match l, i with
  | [], _ => []
  | _ :: l, O => l
  | x :: l, S i => x :: drop_nth i l
  end.

(** [l] with its [i]-th element replaced by [y]. *)
Fixpoint put_nth {X : Type} (i : nat) (y : X) (l : list X) : list X :=
  match l, i with
  | [], _ => []
  | _ :: l, O => y :: l
  | x :: l, S i => x :: put_nth i y l
  end.

(** The [i]-th parked function continues, up to its next [await] or its
    end. *)
Definition resume (i : nat) (m : StateManager) : option StateManager :=
  match nth_error (awaiting m) i with
  | None => None
  | Some (AwaitTransition _ (Fulfilled s)) =>
      (* [this.currentState = await ...], then [process] returns *)
      Some (set_awaiting (put_nth i (AwaitProcess true) (awaiting m))
              (observe (Adopted s) (set_currentState s m)))
  | Some (AwaitTransition _ Rejected) =>
      (* the [await] throws: [process] rejects, nothing is assigned *)
      Some (set_awaiting (put_nth i (AwaitProcess false) (awaiting m)) m)
  | Some (AwaitProcess true) =>
      let m := set_awaiting (drop_nth i (awaiting m)) m in
      Some (match actionQueue m with
            | [] => m
            | _ :: _ => queueProcessing m
            end)
  | Some (AwaitProcess false) =>
      Some (observe UnhandledRejection
              (set_awaiting (drop_nth i (awaiting m)) m))
  end.

(** ** The event loop *)

Inductive Event : Type :=
| EvPush (a : Action) (d : Data)
| EvStart
| EvStop (k : nat)
| EvTimeout          (* the oldest pending timer callback runs *)
| EvResume (i : nat).

(** Whether a parked function resumes in a microtask. *)
Definition in_microtask (w : Awaiting) : bool :=
  match w with
  | AwaitTransition Macrotask _ => false
  | AwaitTransition Microtask _ => true
  | AwaitProcess _ => true
  end.

(** One event; [None] when the loop cannot deliver it: no timer is
    pending, a microtask is still due, or nothing is parked at [i]. *)
Definition step (e : Event) (m : StateManager) : option StateManager :=
  match e with
  | EvPush a d => Some (pushAction a d m)
  | EvStart => Some (start m)
  | EvStop k => Some (stop k m)
  | EvTimeout =>
      match timeouts m with
      | O => None
      | S n =>
          if existsb in_microtask (awaiting m) then None
          else Some (tick (set_timeouts n m))
      end
  | EvResume i => resume i m
  end.

Fixpoint run (es : list Event) (m : StateManager) : option StateManager :=
  match es with
  | [] => Some m
  | e :: es =>
      match step e m with
      | Some m => run es m
      | None => None
      end
  end.

Definition reachable (m : StateManager) : Prop :=
  exists (s0 : State) (es : list Event), run es (new s0) = Some m.

End Runner.

Arguments Fulfilled {State} s.
Arguments Rejected {State}.
Arguments Throws {State}.
Arguments Returns {State} t r.
Arguments AwaitTransition {State} t r.
Arguments AwaitProcess {State} ok.
Arguments Invoked {State Action Data} s q.
Arguments Adopted {State Action Data} s.
Arguments StopResolved {State Action Data} k.
Arguments UnhandledRejection {State Action Data}.
Arguments CalledUndefined {State Action Data}.
Arguments EvPush {Action Data} a d.
Arguments EvStart {Action Data}.
Arguments EvStop {Action Data} k.
Arguments EvTimeout {Action Data}.
Arguments EvResume {Action Data} i.
Arguments new {State} Action Data initialState.
Arguments reachable {State Action Data} states m.

(** ** What the documentation promises, written independently of the code *)

Section Promised.

Variables State Action Data : Type.
Variable states : StateMap State Action Data.

(** The state a handler's result leaves the machine in: its value when it
    produces one, the state it was called in when it fails. *)
Definition outcome_state (cur : State) (o : Outcome State) : State :=
  match o with
  | Returns _ (Fulfilled s) => s
  | Returns _ Rejected => cur
  | Throws => cur
  end.

(** One action taken to completion in state [cur]. *)
Definition apply_action (cur : State) (q : QueuedAction Action Data) : State :=
  match states cur (action q) with
  | None => cur
  | Some transition => outcome_state cur (transition (data q))
  end.

(** "applying A's handler, then B's, then C's" *)
Definition apply_in_order (cur : State) (qs : list (QueuedAction Action Data)) : State :=
  fold_left apply_action qs cur.

Definition is_start (e : Event Action Data) : bool :=
  match e with EvStart => true | _ => false end.

Definition is_stop (e : Event Action Data) : bool :=
  match e with EvStop _ => true | _ => false end.

Definition is_timeout (e : Event Action Data) : bool :=
  match e with EvTimeout => true | _ => false end.

(** The lifecycle edges as the specification lists them. *)
Definition documented_edge (e : Event Action Data)
           (before after : StateManagerStatus) : bool :=
  status_eqb before after
  || (is_start e && status_eqb before STOPPED && status_eqb after RUNNING)
  || (is_stop e && status_eqb before RUNNING && status_eqb after STOP_PENDING)
  || (is_timeout e && status_eqb before STOP_PENDING && status_eqb after STOPPED).

(** The lifecycle edges of the code: [stop] is taken from any status. *)
Definition lifecycle_edge (e : Event Action Data)
           (before after : StateManagerStatus) : bool :=
  status_eqb before after
  || (is_start e && status_eqb before STOPPED && status_eqb after RUNNING)
  || (is_stop e && status_eqb after STOP_PENDING)
  || (is_timeout e && status_eqb before STOP_PENDING && status_eqb after STOPPED).

(** How many handlers have been called and have not yet had their result
    adopted or their failure raised. *)
Definition handlers_in_flight (m : StateManager State Action Data) : nat :=
  length (filter (fun w => match w with
                           | AwaitTransition _ _ => true
                           | AwaitProcess _ => false
                           end) (awaiting m)).

(** A handler call that raises, or whose promise rejects. *)
Definition fails (o : Outcome State) : bool :=
  match o with
  | Throws => true
  | Returns _ Rejected => true
  | Returns _ (Fulfilled _) => false
  end.

(** A parked function that resumes by throwing. *)
Definition failing (w : Awaiting State) : bool :=
  match w with
  | AwaitTransition _ Rejected => true
  | AwaitProcess false => true
  | AwaitTransition _ (Fulfilled _) => false
  | AwaitProcess true => false
  end.

(** A handler call that does not outlive the macrotask it was made in. *)
Definition settles_in_microtask (o : Outcome State) : bool :=
  match o with
  | Throws => true
  | Returns Microtask _ => true
  | Returns Macrotask _ => false
  end.

(** A table none of whose handlers waits for a later macrotask. *)
Definition synchronous : Prop :=
  forall (s : State) (a : Action) (transition : Transition State Data) (d : Data),
    states s a = Some transition ->
    settles_in_microtask (transition d) = true.

(** The actions a sequence of events pushes, in order. *)
Fixpoint pushed (es : list (Event Action Data)) : list (QueuedAction Action Data) :=
  match es with
  | [] => []
  | EvPush a d :: es => mkQueued a d :: pushed es
  | _ :: es => pushed es
  end.

(** The state the runner is in once the handler it waits for, if any, has
    been adopted. *)
Definition settling (m : StateManager State Action Data) : State :=
  match awaiting m with
  | [AwaitTransition _ (Fulfilled s)] => s
  | _ => currentState m
  end.

(** Nothing is parked, or one function is and resumes in a microtask. *)
Definition serialized (m : StateManager State Action Data) : Prop :=
  awaiting m = [] \/ exists w, awaiting m = [w] /\ in_microtask w = true.

End Promised.

(** ** Measures on managers, logs and runs *)

Section Measures.

Variables State Action Data : Type.
Variable states : StateMap State Action Data.

(** [e] is neither [start()] nor [stop()]. *)
Definition not_lifecycle (e : Event Action Data) : bool :=
  negb (is_start e || is_stop e).

(** [e] is neither [stop()] nor a timer callback. *)
Definition not_stop_nor_timeout (e : Event Action Data) : bool :=
  negb (is_stop e || is_timeout e).

(** The state last assigned to [currentState] according to a log, [s0] when
    it records no assignment. *)
Definition last_adopted (s0 : State) (l : list (Obs State Action Data)) : State :=
  fold_left (fun cur o => match o with Adopted s => s | _ => cur end) l s0.

(** The queued actions handlers were called on, in the order of the calls. *)
Fixpoint invoked (l : list (Obs State Action Data)) : list (QueuedAction Action Data) :=
  match l with
  | [] => []
  | Invoked _ q :: l => q :: invoked l
  | _ :: l => invoked l
  end.

Definition is_invoked (o : Obs State Action Data) : bool :=
  match o with Invoked _ _ => true | _ => false end.

Definition is_adopted (o : Obs State Action Data) : bool :=
  match o with Adopted _ => true | _ => false end.

Definition is_unhandled (o : Obs State Action Data) : bool :=
  match o with UnhandledRejection => true | _ => false end.

Definition count {X : Type} (p : X -> bool) (l : list X) : nat :=
  length (filter p l).

(** A parked function behind which a handler call is still to be settled:
    its result not yet assigned, or its failure not yet surfaced. *)
Definition unsettled (w : Awaiting State) : bool :=
  match w with
  | AwaitTransition _ _ => true
  | AwaitProcess false => true
  | AwaitProcess true => false
  end.

(** [l1] is [l2] with some elements left out. *)
Inductive subseq {X : Type} : list X -> list X -> Prop :=
| subseq_nil : subseq [] []
| subseq_skip (x : X) (l1 l2 : list X) : subseq l1 l2 -> subseq l1 (x :: l2)
| subseq_take (x : X) (l1 l2 : list X) : subseq l1 l2 -> subseq (x :: l1) (x :: l2).

(** A table none of whose handlers raises or rejects. *)
Definition never_fails : Prop :=
  forall (s : State) (a : Action) (transition : Transition State Data) (d : Data),
    states s a = Some transition ->
    fails (transition d) = false.

(** A manager on which nothing is pending: no timer callback, nothing parked. *)
Definition idle (m : StateManager State Action Data) : Prop :=
  timeouts m = 0 /\ awaiting m = [].

End Measures.

(** ** The class before the status enumeration (src/unnamed/part_002)

    The same runner with a boolean [running] in place of [status]: [start]
    sets it unconditionally, [stop] clears it, and the timer callback tells
    a pending stop by the stored callback alone. *)

Module Previous.

Section Runner.

Variables State Action Data : Type.

Record StateManager : Type := mkManager {
  currentState : State;
  actionQueue : list (QueuedAction Action Data);
  running : bool;
  stopCallback : option nat;
  queuedProcessing : option nat;
  (* the event loop *)
  timeouts : nat;
  awaiting : list (Awaiting State);
  log : list (Obs State Action Data)
}.

Variable states : StateMap State Action Data.

(** [constructor(states, initialState)] *)
Definition new (initialState : State) : StateManager :=
  mkManager initialState [] false None None 0 [] [].

Definition getCurrentState (m : StateManager) : State := currentState m.

(** [queueProcessing()], up to and including the call of [setTimeout]. *)
Definition queueProcessing (m : StateManager) : StateManager :=
  match queuedProcessing m with
  | Some _ => m
  | None =>
      mkManager (currentState m) (actionQueue m) (running m) (stopCallback m)
                (queuedProcessing m) (S (timeouts m)) (awaiting m) (log m)
  end.

(** [pushAction(action, data)] *)
Definition pushAction (a : Action) (d : Data) (m : StateManager) : StateManager :=
  let m := mkManager (currentState m) (actionQueue m ++ [mkQueued a d])
                     (running m) (stopCallback m) (queuedProcessing m)
                     (timeouts m) (awaiting m) (log m) in
  if running m then queueProcessing m else m.

(** [start()] *)
Definition start (m : StateManager) : StateManager :=
  queueProcessing
    (mkManager (currentState m) (actionQueue m) true (stopCallback m)
               (queuedProcessing m) (timeouts m) (awaiting m) (log m)).

(** [stop()]; [k] names the [resolve] of the promise this call returns. *)
Definition stop (k : nat) (m : StateManager) : StateManager :=
  queueProcessing
    (mkManager (currentState m) (actionQueue m) false (Some k)
               (queuedProcessing m) (timeouts m) (awaiting m) (log m)).

(** [process()], up to its first [await] or its return. *)
Definition process (m : StateManager) : StateManager * Awaiting State :=
  match actionQueue m with
  | [] => (m, AwaitProcess true)
  | q :: rest =>
      let m := mkManager (currentState m) rest (running m) (stopCallback m)
                         (queuedProcessing m) (timeouts m) (awaiting m) (log m) in
      match states (currentState m) (action q) with
      | None => (m, AwaitProcess true)
      | Some transition =>
          let m := mkManager (currentState m) (actionQueue m) (running m)
                             (stopCallback m) (queuedProcessing m) (timeouts m)
                             (awaiting m)
                             (log m ++ [Invoked (currentState m) q]) in
          match transition (data q) with
          | Throws => (m, AwaitProcess false)
          | Returns t r => (m, AwaitTransition t r)
          end
      end
  end.

(** The callback given to [setTimeout], up to its first [await] or its
    return. *)
Definition tick (m : StateManager) : StateManager :=
  let m := mkManager (currentState m) (actionQueue m) (running m)
                     (stopCallback m) None (timeouts m) (awaiting m) (log m) in
  match stopCallback m with
  | Some k =>
      mkManager (currentState m) (actionQueue m) (running m) None
                (queuedProcessing m) (timeouts m) (awaiting m)
                (log m ++ [StopResolved k])
  | None =>
      let (m, w) := process m in
      mkManager (currentState m) (actionQueue m) (running m) (stopCallback m)
                (queuedProcessing m) (timeouts m) (awaiting m ++ [w]) (log m)
  end.

(** The [i]-th parked function continues. *)
Definition resume (i : nat) (m : StateManager) : option StateManager :=
  match nth_error (awaiting m) i with
  | None => None
  | Some (AwaitTransition _ (Fulfilled s)) =>
      Some (mkManager s (actionQueue m) (running m) (stopCallback m)
                      (queuedProcessing m) (timeouts m)
                      (put_nth i (AwaitProcess true) (awaiting m))
                      (log m ++ [Adopted s]))
  | Some (AwaitTransition _ Rejected) =>
      Some (mkManager (currentState m) (actionQueue m) (running m)
                      (stopCallback m) (queuedProcessing m) (timeouts m)
                      (put_nth i (AwaitProcess false) (awaiting m)) (log m))
  | Some (AwaitProcess true) =>
      let m := mkManager (currentState m) (actionQueue m) (running m)
                         (stopCallback m) (queuedProcessing m) (timeouts m)
                         (drop_nth i (awaiting m)) (log m) in
      Some (match actionQueue m with
            | [] => m
            | _ :: _ => queueProcessing m
            end)
  | Some (AwaitProcess false) =>
      Some (mkManager (currentState m) (actionQueue m) (running m)
                      (stopCallback m) (queuedProcessing m) (timeouts m)
                      (drop_nth i (awaiting m))
                      (log m ++ [UnhandledRejection]))
  end.

Definition step (e : Event Action Data) (m : StateManager) : option StateManager :=
  match e with
  | EvPush a d => Some (pushAction a d m)
  | EvStart => Some (start m)
  | EvStop k => Some (stop k m)
  | EvTimeout =>
      match timeouts m with
      | O => None
      | S n =>
          if existsb (@in_microtask State) (awaiting m) then None
          else Some (tick (mkManager (currentState m) (actionQueue m)
                                     (running m) (stopCallback m)
                                     (queuedProcessing m) n (awaiting m)
                                     (log m)))
      end
  | EvResume i => resume i m
  end.

Fixpoint run (es : list (Event Action Data)) (m : StateManager) : option StateManager :=
  match es with
  | [] => Some m
  | e :: es =>
      match step e m with
      | Some m => run es m
      | None => None
      end
  end.

End Runner.

Arguments new {State} Action Data initialState.

End Previous.

(** ** The two versions side by side *)

Section Versions.

Variables State Action Data : Type.
Variable states : StateMap State Action Data.

(** A manager of the present class seen as one of the earlier class:
    [running] is "the status is RUNNING". *)
Definition as_previous (m : StateManager State Action Data)
  : Previous.StateManager State Action Data :=
  Previous.mkManager (currentState m) (actionQueue m)
                     (status_eqb (status m) RUNNING) (stopCallback m)
                     (queuedProcessing m) (timeouts m) (awaiting m) (log m).

(** Along the run of [es] from [m], every [start()] finds the status
    STOPPED. *)
Fixpoint starts_when_stopped (es : list (Event Action Data))
         (m : StateManager State Action Data) : bool :=
  match es with
  | [] => true
  | e :: es =>
      (negb (is_start e) || status_eqb (status m) STOPPED)
      && match step states e m with
         | Some m' => starts_when_stopped es m'
         | None => true
         end
  end.

End Versions.

(** ** A three-state machine to run the code on *)

Module Demo.

Inductive states : Type := S1 | S2 | S3.
Inductive actions : Type := A1 | A2.

Definition runner : Type := StateManager states actions unit.

(** [S1: {A1: async () => { await io(); return S2 }}, S2: {A2: () => S3}, S3: {}] *)
Definition slow_table : StateMap states actions unit :=
  fun s a =>
    match s, a with
    | S1, A1 => Some (fun _ => Returns Macrotask (Fulfilled S2))
    | S2, A2 => Some (fun _ => Returns Microtask (Fulfilled S3))
    | _, _ => None
    end.

(** [S1: {A1: () => S2}, S2: {A2: () => S3}, S3: {}] *)
Definition quick_table : StateMap states actions unit :=
  fun s a =>
    match s, a with
    | S1, A1 => Some (fun _ => Returns Microtask (Fulfilled S2))
    | S2, A2 => Some (fun _ => Returns Microtask (Fulfilled S3))
    | _, _ => None
    end.

(** [S1: {A1: async () => { await io(); return S2 },
          A2: async () => { await io(); return S3 }}, S2: {}, S3: {}] *)
Definition overlap_table : StateMap states actions unit :=
  fun s a =>
    match s, a with
    | S1, A1 => Some (fun _ => Returns Macrotask (Fulfilled S2))
    | S1, A2 => Some (fun _ => Returns Macrotask (Fulfilled S3))
    | _, _ => None
    end.

(** [S1: {A1: () => { throw ... }}, S2: {}, S3: {}] *)
Definition failing_table : StateMap states actions unit :=
  fun s a =>
    match s, a with
    | S1, A1 => Some (fun _ => Throws)
    | _, _ => None
    end.

Definition push (a : actions) : Event actions unit := EvPush a tt.

End Demo.

(** ** Properties of the code *)

(** Opens every method down to the record fields. *)
Ltac open_methods :=
  unfold step, resume, tick, process, pushAction, start, stop,
    queueProcessing, park, observe, set_currentState, set_actionQueue,
    set_status, set_stopCallback, set_queuedProcessing, set_timeouts,
    set_awaiting in *;
  simpl in *.

(** Splits on the scrutinee of the first [match] left in the goal. *)
Ltac split_match :=
  match goal with
  | |- context [match ?x with _ => _ end] => destruct x eqn:?; simpl in *
  end.

(** Splits on the scrutinee of the first [match] left in a hypothesis. *)
Ltac split_hyp :=
  match goal with
  | H : context [match ?x with _ => _ end] |- _ => destruct x eqn:?; simpl in *
  end.

(** Turns [Some a = Some b] and [(a, b) = (c, d)] into equations on their parts. *)
Ltac open_eqs :=
  repeat match goal with
    | H : Some _ = Some _ |- _ => injection H as H; try subst
    | H : (_, _) = (_, _) |- _ => injection H as ? ?; try subst
    | H : None = Some _ |- _ => discriminate H
    | H : Some _ = None |- _ => discriminate H
    end.

Section Properties.

Variables State Action Data : Type.
Variable states : StateMap State Action Data.

Local Abbreviation Manager := (StateManager State Action Data).

Lemma status_eqb_eq (x y : StateManagerStatus) :
  status_eqb x y = true <-> x = y.
Proof. destruct x, y; simpl; split; congruence. Qed.

Lemma status_eqb_neq (x y : StateManagerStatus) :
  status_eqb x y = false <-> x <> y.
Proof. destruct x, y; simpl; split; congruence. Qed.

(** *** [queueProcessing] touches the timer count only *)

Lemma queueProcessing_frame (m : Manager) :
  currentState (queueProcessing m) = currentState m
  /\ actionQueue (queueProcessing m) = actionQueue m
  /\ status (queueProcessing m) = status m
  /\ stopCallback (queueProcessing m) = stopCallback m
  /\ queuedProcessing (queueProcessing m) = queuedProcessing m
  /\ awaiting (queueProcessing m) = awaiting m
  /\ log (queueProcessing m) = log m.
Proof.
  unfold queueProcessing; destruct (queuedProcessing m) eqn:E; simpl;
    repeat split; try reflexivity; exact E.
Qed.

(** The guard of [queueProcessing] reads a field that is only ever
    written with [undefined]. *)
Lemma step_queuedProcessing (e : Event Action Data) (m m' : Manager) :
  queuedProcessing m = None ->
  step states e m = Some m' ->
  queuedProcessing m' = None.
Proof.
  intros Hq Hs; destruct m; destruct e; open_methods; subst.
  all: repeat split_hyp; open_eqs; simpl; reflexivity.
Qed.

Lemma run_app (es1 es2 : list (Event Action Data)) (m : Manager) :
  run states (es1 ++ es2) m =
  match run states es1 m with
  | Some m1 => run states es2 m1
  | None => None
  end.
Proof.
  revert m; induction es1 as [|e es1 IH]; intros m; simpl; [reflexivity|].
  destruct (step states e m); [apply IH | reflexivity].
Qed.

(** Induction over the runs of the loop from a freshly built manager. *)
Lemma reachable_induction (P : Manager -> Prop) :
  (forall s0, P (new Action Data s0)) ->
  (forall e m m', reachable states m -> P m ->
                  step states e m = Some m' -> P m') ->
  forall m, reachable states m -> P m.
Proof.
  intros Hnew Hstep m (s0 & es & Hrun); revert m Hrun.
  induction es as [|e es IH] using rev_ind; intros m Hrun.
  - simpl in Hrun; injection Hrun as <-; apply Hnew.
  - rewrite run_app in Hrun.
    destruct (run states es (new Action Data s0)) as [m1|] eqn:E1; [|discriminate].
    simpl in Hrun. destruct (step states e m1) as [m2|] eqn:E2; [|discriminate].
    injection Hrun as <-.
    apply (Hstep e m1 m2); [exists s0, es; exact E1 | apply IH; reflexivity | exact E2].
Qed.

Lemma reachable_queuedProcessing (m : Manager) :
  reachable states m -> queuedProcessing m = None.
Proof.
  revert m; apply reachable_induction.
  - reflexivity.
  - intros e m m' _ IH Hs; exact (step_queuedProcessing e m IH Hs).
Qed.

(** *** The stop callback *)

Lemma step_keeps_callback (e : Event Action Data) (m m' : Manager) :
  (status m = STOP_PENDING -> stopCallback m <> None) ->
  step states e m = Some m' ->
  status m' = STOP_PENDING -> stopCallback m' <> None.
Proof.
  intros Hinv Hs; destruct m; destruct e; open_methods.
  all: repeat split_hyp; open_eqs; simpl in *;
    try discriminate; try (intros _; discriminate); try assumption.
Qed.

Lemma step_calls_no_undefined (e : Event Action Data) (m m' : Manager) :
  (status m = STOP_PENDING -> stopCallback m <> None) ->
  ~ In CalledUndefined (log m) ->
  step states e m = Some m' ->
  ~ In CalledUndefined (log m').
Proof.
  intros Hinv Hlog Hs; destruct m; destruct e; open_methods.
  all: repeat split_hyp; open_eqs; simpl in *; try assumption.
  all: try (rewrite in_app_iff; simpl; intros [?|[?|[]]];
            [contradiction | discriminate]).
  all: match goal with
       | H : status_eqb ?s STOP_PENDING = true |- _ =>
           apply status_eqb_eq in H; exfalso; apply (Hinv H); reflexivity
       end.
Qed.

Lemma reachable_stop_invariant (m : Manager) :
  reachable states m ->
  (status m = STOP_PENDING -> stopCallback m <> None)
  /\ ~ In CalledUndefined (log m).
Proof.
  revert m; apply reachable_induction.
  - intros s0; split; [discriminate | intros []].
  - intros e m m' _ [Hcb Hlog] Hs; split.
    + exact (step_keeps_callback e m Hcb Hs).
    + exact (step_calls_no_undefined e m Hcb Hlog Hs).
Qed.

(** C10. In every state the runner can reach, a status of STOP_PENDING
    comes with a stored stop callback, and the unconditional call
    [this.stopCallback!()] of the timer callback has never been made on
    [undefined]. *)
Theorem stop_pending_has_callback (m : Manager) :
  reachable states m ->
  (status m = STOP_PENDING -> exists k, stopCallback m = Some k)
  /\ ~ In CalledUndefined (log m).
Proof.
  intros Hr; destruct (reachable_stop_invariant Hr) as [Hcb Hlog].
  split; [|exact Hlog].
  intros Hst; destruct (stopCallback m) as [k|] eqn:E.
  - exists k; reflexivity.
  - exfalso; exact (Hcb Hst eq_refl).
Qed.

(** *** The timer callback under STOP_PENDING *)

(** What the timer callback itself does under STOP_PENDING: it sets the
    status to STOPPED, calls the stored stop callback and clears it, and
    takes no action from the queue, so that queue, current state and parked
    functions are as before. What other pending callbacks do afterwards is
    not its concern. *)
Lemma stop_pending_tick_frame (m m' : Manager) :
  reachable states m ->
  status m = STOP_PENDING ->
  step states EvTimeout m = Some m' ->
  status m' = STOPPED
  /\ (exists k, stopCallback m = Some k /\ log m' = log m ++ [StopResolved k])
  /\ stopCallback m' = None
  /\ actionQueue m' = actionQueue m
  /\ currentState m' = currentState m
  /\ awaiting m' = awaiting m.
Proof.
  intros Hr Hst Hs.
  destruct (reachable_stop_invariant Hr) as [Hcb _].
  specialize (Hcb Hst).
  destruct m as [cur queue st [k|] qp n ws l]; [|contradiction].
  open_methods; subst.
  destruct n; [discriminate|].
  destruct (existsb _ _); [discriminate|].
  injection Hs as <-; simpl.
  repeat split; try reflexivity.
  exists k; split; reflexivity.
Qed.

(** *** Actions without a handler *)

(** C6. When the action at the head of the queue has no handler in the
    current state, the process step removes it and does nothing else: no
    handler is called, nothing is raised, the current state stays, and the
    queue is left with the actions behind it. *)
Theorem unregistered_action_discarded
        (m m' : Manager) (q : QueuedAction Action Data)
        (rest : list (QueuedAction Action Data)) :
  status m <> STOP_PENDING ->
  actionQueue m = q :: rest ->
  states (currentState m) (action q) = None ->
  step states EvTimeout m = Some m' ->
  process states m = (set_actionQueue rest m, AwaitProcess true)
  /\ currentState m' = currentState m
  /\ actionQueue m' = rest
  /\ log m' = log m
  /\ status m' = status m
  /\ awaiting m' = awaiting m ++ [AwaitProcess true].
Proof.
  intros Hst Hq Hno Hs.
  apply status_eqb_neq in Hst.
  destruct m as [cur queue st cb qp n ws l]; open_methods; subst.
  rewrite Hno in *; rewrite Hst in *.
  destruct n; [discriminate|].
  destruct (existsb _ _); [discriminate|].
  injection Hs as <-; simpl.
  repeat split; reflexivity.
Qed.

(** *** Failing handlers *)

(** The queue only ever grows at its tail, by a push, and shrinks at its
    head, by a timer callback: an action taken off it is never put back. *)
Lemma step_queue (e : Event Action Data) (m m' : Manager) :
  step states e m = Some m' ->
  actionQueue m' = actionQueue m
  \/ (exists a d, e = EvPush a d
                  /\ actionQueue m' = actionQueue m ++ [mkQueued a d])
  \/ (e = EvTimeout /\ exists q, actionQueue m = q :: actionQueue m').
Proof.
  intros Hs; destruct m as [cur queue st cb qp n ws l]; destruct e; open_methods.
  all: repeat split_hyp; open_eqs; simpl in *; subst; auto.
  all: try (right; left; eauto; fail).
  all: right; right; split; [reflexivity | eauto].
Qed.

(** The current state is only ever written when a parked [process]
    resumes with a fulfilled promise. *)
Lemma step_currentState (e : Event Action Data) (m m' : Manager) :
  step states e m = Some m' ->
  currentState m' = currentState m
  \/ exists i t, e = EvResume i
                 /\ nth_error (awaiting m) i
                    = Some (AwaitTransition t (Fulfilled (currentState m'))).
Proof.
  intros Hs; destruct m as [cur queue st cb qp n ws l]; destruct e; open_methods.
  all: repeat split_hyp; open_eqs; simpl in *; subst; auto.
  right; eauto.
Qed.

(** C9. A handler that raises, or whose promise rejects, changes nothing
    but the queue it was taken from: the timer callback that calls it
    leaves the current state as it was and the queue without the action,
    and when the parked call later resumes by throwing, the current state,
    the queue and the pending timers all stay as they are, so that nothing
    is assigned and nothing is run again. *)
Theorem failed_handler_keeps_state :
  (forall (m m' : Manager) (q : QueuedAction Action Data)
          (rest : list (QueuedAction Action Data))
          (transition : Transition State Data),
      status m <> STOP_PENDING ->
      actionQueue m = q :: rest ->
      states (currentState m) (action q) = Some transition ->
      fails (transition (data q)) = true ->
      step states EvTimeout m = Some m' ->
      currentState m' = currentState m
      /\ actionQueue m' = rest
      /\ status m' = status m
      /\ timeouts m' = pred (timeouts m)
      /\ log m' = log m ++ [Invoked (currentState m) q]
      /\ exists w, awaiting m' = awaiting m ++ [w] /\ failing w = true)
  /\ (forall (m m' : Manager) (i : nat) (w : Awaiting State),
         nth_error (awaiting m) i = Some w ->
         failing w = true ->
         step states (EvResume i) m = Some m' ->
         currentState m' = currentState m
         /\ actionQueue m' = actionQueue m
         /\ status m' = status m
         /\ timeouts m' = timeouts m
         /\ (log m' = log m \/ log m' = log m ++ [UnhandledRejection])
         /\ (awaiting m' = put_nth i (AwaitProcess false) (awaiting m)
             \/ awaiting m' = drop_nth i (awaiting m))).
Proof.
  split.
  - intros m m' q rest transition Hst Hq Hh Hf Hs.
    apply status_eqb_neq in Hst.
    destruct m as [cur queue st cb qp n ws l]; open_methods; subst.
    rewrite Hh in *; rewrite Hst in *.
    destruct n; [discriminate|].
    destruct (existsb _ _); [discriminate|].
    destruct (transition (data q)) as [|t [s|]]; simpl in Hf; try discriminate;
      injection Hs as <-; simpl; repeat split; eauto.
  - intros m m' i w Hw Hf Hs.
    destruct m as [cur queue st cb qp n ws l]; open_methods.
    rewrite Hw in Hs.
    destruct w as [t [s|]|[|]]; simpl in Hf; try discriminate;
      injection Hs as <-; simpl; repeat split; auto.
Qed.

(** *** Lifecycle *)

Lemma start_unless_stopped (m : Manager) :
  status m <> STOPPED -> start m = m.
Proof.
  intros H; apply status_eqb_neq in H; unfold start; rewrite H; reflexivity.
Qed.

(** C8, as the code has it. Every step of the loop leaves the status as it
    is or moves it along STOPPED to RUNNING by [start], any status to
    STOP_PENDING by [stop], or STOP_PENDING to STOPPED by the timer
    callback; and [start] on a manager that is not STOPPED changes
    nothing at all. *)
Theorem lifecycle_edges (e : Event Action Data) (m m' : Manager) :
  step states e m = Some m' ->
  lifecycle_edge e (status m) (status m') = true
  /\ (is_start e = true -> status m <> STOPPED -> m' = m).
Proof.
  intros Hs; split.
  - destruct m as [cur queue st cb qp n ws l]; destruct e; open_methods.
    all: repeat split_hyp; open_eqs; simpl in *; subst.
    all: unfold lifecycle_edge; simpl.
    all: try (destruct st; simpl in *; try reflexivity; discriminate).
  - intros He Hst; destruct e; try discriminate.
    simpl in Hs; rewrite (start_unless_stopped m Hst) in Hs; congruence.
Qed.

(** *** Pushing *)

(** [pushAction] appends at the tail whatever the status, and writes
    neither the current state nor the status. *)
Lemma pushAction_appends (a : Action) (d : Data) (m : Manager) :
  actionQueue (pushAction a d m) = actionQueue m ++ [mkQueued a d]
  /\ currentState (pushAction a d m) = currentState m
  /\ status (pushAction a d m) = status m
  /\ awaiting (pushAction a d m) = awaiting m
  /\ log (pushAction a d m) = log m.
Proof.
  destruct m as [cur queue st cb [h|] n ws l]; destruct st; simpl;
    repeat split; reflexivity.
Qed.

(** Pushes on a STOPPED manager arm nothing. *)
Lemma pushes_while_stopped (qs : list (QueuedAction Action Data)) (m : Manager) :
  status m = STOPPED ->
  exists m', run states (map (fun q => EvPush (action q) (data q)) qs) m = Some m'
             /\ currentState m' = currentState m
             /\ actionQueue m' = actionQueue m ++ qs
             /\ status m' = STOPPED
             /\ timeouts m' = timeouts m
             /\ awaiting m' = awaiting m.
Proof.
  revert m; induction qs as [|[a d] qs IH]; intros m Hst; simpl.
  - exists m; rewrite app_nil_r; repeat split; auto.
  - destruct (IH (pushAction a d m)) as (m' & Hrun & Hc & Hq & Hs & Ht & Hw).
    + destruct m as [cur queue st cb qp n ws l]; simpl in *; subst; reflexivity.
    + exists m'; split; [exact Hrun|].
      destruct m as [cur queue st cb qp n ws l]; simpl in *; subst; simpl in *.
      rewrite Hq, <- app_assoc; repeat split; auto.
Qed.

(** *** Overwritten stop callbacks *)

Lemma step_forgets_callback (k : nat) (e : Event Action Data) (m m' : Manager) :
  e <> EvStop k ->
  stopCallback m <> Some k ->
  ~ In (StopResolved k) (log m) ->
  step states e m = Some m' ->
  stopCallback m' <> Some k /\ ~ In (StopResolved k) (log m').
Proof.
  intros He Hcb Hlog Hs.
  destruct m as [cur queue st cb qp n ws l]; destruct e; open_methods.
  all: repeat split_hyp; open_eqs; simpl in *; subst; split;
    try assumption; try discriminate; try congruence.
  all: rewrite in_app_iff; simpl; intros [?|[?|[]]];
    try contradiction; try discriminate; congruence.
Qed.

(** X13. Once a second [stop] has replaced the stored callback, no run of
    the loop calls the first one, unless that very call is made again. *)
Lemma overwritten_callback_dropped
      (k1 k2 : nat) (es : list (Event Action Data)) (m m' : Manager) :
  k1 <> k2 ->
  ~ In (StopResolved k1) (log m) ->
  Forall (fun e => e <> EvStop k1) es ->
  run states es (stop k2 (stop k1 m)) = Some m' ->
  ~ In (StopResolved k1) (log m').
Proof.
  intros Hk Hlog Hes Hrun.
  assert (Hgen : forall es m0 m1,
             Forall (fun e => e <> EvStop k1) es ->
             stopCallback m0 <> Some k1 ->
             ~ In (StopResolved k1) (log m0) ->
             run states es m0 = Some m1 ->
             ~ In (StopResolved k1) (log m1)).
  { clear; intros es; induction es as [|e es IH]; intros m0 m1 Hall Hcb Hlog Hrun.
    - simpl in Hrun; injection Hrun as <-; exact Hlog.
    - simpl in Hrun; inversion Hall; subst.
      destruct (step states e m0) as [m2|] eqn:E; [|discriminate].
      destruct (@step_forgets_callback k1 e m0 m2 H1 Hcb Hlog E) as [Hcb' Hlog'].
      exact (IH m2 m1 H2 Hcb' Hlog' Hrun). }
  apply (Hgen es (stop k2 (stop k1 m)) m' Hes); [| |exact Hrun].
  - destruct m as [cur queue st cb [h|] n ws l]; simpl; congruence.
  - destruct m as [cur queue st cb [h|] n ws l]; simpl in *; exact Hlog.
Qed.

(** *** Tables whose handlers never wait for a later macrotask *)

Lemma pushed_app (es1 es2 : list (Event Action Data)) :
  pushed (es1 ++ es2) = pushed es1 ++ pushed es2.
Proof.
  induction es1 as [|e es1 IH]; [reflexivity|].
  destruct e; simpl; rewrite ?IH; reflexivity.
Qed.

Lemma apply_in_order_app (cur : State) (qs1 qs2 : list (QueuedAction Action Data)) :
  apply_in_order states cur (qs1 ++ qs2)
  = apply_in_order states (apply_in_order states cur qs1) qs2.
Proof. unfold apply_in_order; apply fold_left_app. Qed.

Lemma apply_action_none (cur : State) (q : QueuedAction Action Data) :
  states cur (action q) = None -> apply_action states cur q = cur.
Proof. intros H; unfold apply_action; rewrite H; reflexivity. Qed.

Lemma apply_action_some (cur : State) (q : QueuedAction Action Data)
      (transition : Transition State Data) :
  states cur (action q) = Some transition ->
  apply_action states cur q = outcome_state cur (transition (data q)).
Proof. intros H; unfold apply_action; rewrite H; reflexivity. Qed.

(** With such a table a timer callback only ever runs when nothing is
    parked, so at most one function is parked at any time. *)
Lemma step_serialized (e : Event Action Data) (m m' : Manager) :
  synchronous states ->
  serialized m ->
  step states e m = Some m' ->
  serialized m'.
Proof.
  intros Hsync Hser Hs; unfold serialized in *.
  destruct m as [cur queue st cb qp n ws l]; simpl in *.
  destruct Hser as [-> | (w & -> & Hw)].
  - destruct e as [a d| |k| |i]; open_methods.
    + repeat split_hyp; open_eqs; simpl; auto.
    + repeat split_hyp; open_eqs; simpl; auto.
    + repeat split_hyp; open_eqs; simpl; auto.
    + destruct n; [discriminate|].
      destruct (status_eqb st STOP_PENDING).
      * destruct cb; open_eqs; simpl; auto.
      * destruct queue as [|q rest]; simpl in *; open_eqs; simpl;
          [right; eexists; split; reflexivity|].
        destruct (states cur (action q)) as [h|] eqn:Eh; simpl in *; open_eqs;
          simpl; [|right; eexists; split; reflexivity].
        specialize (Hsync cur (action q) h (data q) Eh).
        destruct (h (data q)) as [|[|] r]; simpl in *; try discriminate;
          open_eqs; simpl; right; eexists; split; reflexivity.
    + destruct i; discriminate.
  - destruct e as [a d| |k| |i]; open_methods.
    + repeat split_hyp; open_eqs; simpl; eauto.
    + repeat split_hyp; open_eqs; simpl; eauto.
    + repeat split_hyp; open_eqs; simpl; eauto.
    + destruct n; [discriminate|]. rewrite Hw in Hs; discriminate.
    + destruct i as [|i]; simpl in *; [|destruct i; discriminate].
      destruct w as [t [s|]|[|]]; open_eqs; simpl; eauto.
      destruct queue; simpl; auto.
      destruct qp; simpl; auto.
Qed.

(** Each step takes the queue one action further along the in-order
    application, or adds the pushed action at its end. *)
Lemma step_in_order (e : Event Action Data) (m m' : Manager) :
  synchronous states ->
  serialized m ->
  step states e m = Some m' ->
  apply_in_order states (settling m') (actionQueue m')
  = apply_in_order states (settling m) (actionQueue m ++ pushed [e]).
Proof.
  intros Hsync Hser Hs; unfold serialized, settling in *.
  destruct m as [cur queue st cb qp n ws l]; simpl in *.
  destruct Hser as [-> | (w & -> & Hw)].
  - destruct e as [a d| |k| |i]; open_methods; try rewrite app_nil_r.
    + repeat split_hyp; open_eqs; simpl; reflexivity.
    + repeat split_hyp; open_eqs; simpl; reflexivity.
    + repeat split_hyp; open_eqs; simpl; reflexivity.
    + destruct n; [discriminate|].
      destruct (status_eqb st STOP_PENDING).
      * destruct cb; open_eqs; simpl; reflexivity.
      * destruct queue as [|q rest]; simpl in *; open_eqs; simpl; [reflexivity|].
        change (apply_in_order states cur (q :: rest))
          with (apply_in_order states (apply_action states cur q) rest).
        destruct (states cur (action q)) as [h|] eqn:Eh; simpl in *; open_eqs;
          simpl; [|rewrite (apply_action_none _ Eh); reflexivity].
        rewrite (apply_action_some _ Eh).
        destruct (h (data q)) as [|t [s|]]; simpl in *; open_eqs; simpl;
          reflexivity.
    + destruct i; discriminate.
  - destruct e as [a d| |k| |i]; open_methods; try rewrite app_nil_r.
    + repeat split_hyp; open_eqs; simpl; reflexivity.
    + repeat split_hyp; open_eqs; simpl; reflexivity.
    + repeat split_hyp; open_eqs; simpl; reflexivity.
    + destruct n; [discriminate|]. rewrite Hw in Hs; discriminate.
    + destruct i as [|i]; simpl in *; [|destruct i; discriminate].
      destruct w as [t [s|]|[|]]; open_eqs; simpl; try reflexivity.
      destruct queue; simpl; [reflexivity|].
      destruct qp; simpl; reflexivity.
Qed.

Lemma run_in_order (es : list (Event Action Data)) (m m' : Manager) :
  synchronous states ->
  serialized m ->
  run states es m = Some m' ->
  serialized m'
  /\ apply_in_order states (settling m') (actionQueue m')
     = apply_in_order states (settling m) (actionQueue m ++ pushed es).
Proof.
  intros Hsync; revert m; induction es as [|e es IH]; intros m Hser Hrun.
  - simpl in *; injection Hrun as <-; rewrite app_nil_r; auto.
  - simpl in Hrun. destruct (step states e m) as [m1|] eqn:E; [|discriminate].
    destruct (IH m1 (step_serialized e Hsync Hser E) Hrun) as [Hser' Heq].
    split; [exact Hser'|].
    rewrite Heq, apply_in_order_app, (step_in_order e Hsync Hser E).
    rewrite <- apply_in_order_app, <- app_assoc.
    change (e :: es) with ([e] ++ es); rewrite pushed_app; reflexivity.
Qed.

(** X14. With handlers that never wait for a later macrotask at most one
    handler is in flight and the runner is first-in first-out whatever the
    interleaving of calls and callbacks:
    once the queue is drained and nothing is parked, the current state is
    the one reached by taking every pushed action in push order. *)
Lemma synchronous_fifo (s0 : State) (es : list (Event Action Data)) (m : Manager) :
  synchronous states ->
  run states es (new Action Data s0) = Some m ->
  handlers_in_flight m <= 1
  /\ (actionQueue m = [] -> awaiting m = [] ->
      getCurrentState m = apply_in_order states s0 (pushed es)).
Proof.
  intros Hsync Hrun.
  destruct (@run_in_order es (new Action Data s0) m Hsync (or_introl eq_refl) Hrun)
    as [Hser Heq].
  split.
  - unfold handlers_in_flight; destruct Hser as [-> | (w & -> & _)]; simpl;
      [lia | destruct w; simpl; lia].
  - intros Hq Hw; unfold settling in Heq; rewrite Hq, Hw in Heq; simpl in Heq.
    exact Heq.
Qed.

(** *** A manager that was never started *)

Lemma idle_stopped_run (es : list (Event Action Data)) (m m' : Manager) :
  status m = STOPPED ->
  idle m ->
  forallb (@not_lifecycle Action Data) es = true ->
  run states es m = Some m' ->
  currentState m' = currentState m
  /\ actionQueue m' = actionQueue m ++ pushed es
  /\ status m' = STOPPED
  /\ idle m'
  /\ log m' = log m.
Proof.
  revert m; induction es as [|e es IH]; intros m Hst [Ht Hw] Hall Hrun.
  - simpl in Hrun; injection Hrun as <-; rewrite app_nil_r.
    repeat split; auto.
  - simpl in Hall; apply andb_true_iff in Hall; destruct Hall as [He Hall].
    destruct m as [cur queue st cb qp n ws l]; simpl in *; subst.
    destruct e as [a d| |k| |i]; simpl in *; try discriminate.
    + apply IH in Hrun; [|reflexivity|split; reflexivity|exact Hall].
      destruct Hrun as (Hc & Hq & Hs & Hi & Hl); simpl in *.
      rewrite Hq, <- app_assoc; repeat split; auto; apply Hi.
    + unfold resume in Hrun; simpl in Hrun; destruct i; discriminate.
Qed.

(** X1. As long as neither [start] nor [stop] has been called on a freshly
    built manager, whatever is pushed and however long one waits, the
    current state is the initial state, the queue holds exactly the pushed
    actions in push order, no handler has been called and nothing is
    scheduled. *)
Theorem never_started_stays_initial
        (s0 : State) (es : list (Event Action Data)) (m : Manager) :
  forallb (@not_lifecycle Action Data) es = true ->
  run states es (new Action Data s0) = Some m ->
  getCurrentState m = s0
  /\ actionQueue m = pushed es
  /\ status m = STOPPED
  /\ idle m
  /\ log m = [].
Proof.
  intros Hall Hrun.
  exact (@idle_stopped_run es (new Action Data s0) m eq_refl
           (conj eq_refl eq_refl) Hall Hrun).
Qed.

(** *** The re-entrancy guard *)

(** X2. In every state the runner can reach [queuedProcessing] is
    [undefined], so the guard of [queueProcessing] never holds and every
    call of it schedules one more timer callback. *)
Theorem guard_never_set (m : Manager) :
  reachable states m ->
  queuedProcessing m = None
  /\ queueProcessing m = set_timeouts (S (timeouts m)) m.
Proof.
  intros Hr; pose proof (reachable_queuedProcessing Hr) as Hq.
  split; [exact Hq|]. unfold queueProcessing; rewrite Hq; reflexivity.
Qed.

(** *** [start] and the stored callback *)

(** X3. [start] is idempotent: a second call right after the first changes
    nothing, and in particular schedules no second timer callback. *)
Theorem start_idempotent (m : Manager) :
  start (start m) = start m.
Proof.
  destruct m as [cur queue st cb [h|] n ws l]; destruct st; reflexivity.
Qed.

Lemma step_callback_needs_stop_pending (e : Event Action Data) (m m' : Manager) :
  (status m <> STOP_PENDING -> stopCallback m = None) ->
  step states e m = Some m' ->
  status m' <> STOP_PENDING -> stopCallback m' = None.
Proof.
  intros Hinv Hs; destruct m as [cur queue st cb qp n ws l];
    destruct e; open_methods.
  all: repeat split_hyp; open_eqs; simpl in *; intros Hne;
    try reflexivity; try (exfalso; apply Hne; reflexivity);
    try (apply Hinv; assumption).
  all: try (apply Hinv; intros ->; discriminate).
Qed.

(** X4. A stop callback is stored only while the status is STOP_PENDING:
    in every reachable state with status STOPPED or RUNNING the slot is
    [undefined], so no callback is ever left behind by a completed stop. *)
Theorem callback_only_while_stop_pending (m : Manager) :
  reachable states m ->
  status m <> STOP_PENDING ->
  stopCallback m = None.
Proof.
  revert m.
  apply (@reachable_induction
           (fun m => status m <> STOP_PENDING -> stopCallback m = None)).
  - reflexivity.
  - intros e m m' _ IH Hs; exact (step_callback_needs_stop_pending e m IH Hs).
Qed.

(** *** What the log says about the current state *)

Lemma last_adopted_snoc (s0 : State) (l : list (Obs State Action Data))
      (o : Obs State Action Data) :
  last_adopted s0 (l ++ [o])
  = match o with Adopted s => s | _ => last_adopted s0 l end.
Proof. unfold last_adopted; rewrite fold_left_app; reflexivity. Qed.

Lemma step_last_adopted (s0 : State) (e : Event Action Data) (m m' : Manager) :
  currentState m = last_adopted s0 (log m) ->
  step states e m = Some m' ->
  currentState m' = last_adopted s0 (log m').
Proof.
  intros Hinv Hs; destruct m as [cur queue st cb qp n ws l];
    destruct e; open_methods.
  all: repeat split_hyp; open_eqs; simpl in *;
    rewrite ?last_adopted_snoc; try assumption; reflexivity.
Qed.

(** X5. [getCurrentState] always returns the state last assigned from a
    handler's result, and the initial state as long as no result has been
    assigned: nothing else writes the current state. *)
Theorem current_state_is_last_adopted
        (s0 : State) (es : list (Event Action Data)) (m : Manager) :
  run states es (new Action Data s0) = Some m ->
  getCurrentState m = last_adopted s0 (log m).
Proof.
  intros Hrun; unfold getCurrentState.
  assert (Hgen : forall es m0 m1,
             currentState m0 = last_adopted s0 (log m0) ->
             run states es m0 = Some m1 ->
             currentState m1 = last_adopted s0 (log m1)).
  { clear; intros es; induction es as [|e es IH]; intros m0 m1 Hinv Hrun.
    - simpl in Hrun; injection Hrun as <-; exact Hinv.
    - simpl in Hrun; destruct (step states e m0) as [m2|] eqn:E; [|discriminate].
      exact (IH m2 m1 (step_last_adopted s0 e m0 Hinv E) Hrun). }
  exact (Hgen es (new Action Data s0) m eq_refl Hrun).
Qed.

(** *** The queue against the history of pushes *)

Lemma subseq_refl {X : Type} (l : list X) : subseq l l.
Proof. induction l; constructor; assumption. Qed.

Lemma subseq_nil_l {X : Type} (l : list X) : subseq [] l.
Proof. induction l; constructor; assumption. Qed.

Lemma subseq_app {X : Type} (l1 l2 k1 k2 : list X) :
  subseq l1 l2 -> subseq k1 k2 -> subseq (l1 ++ k1) (l2 ++ k2).
Proof.
  intros H1 H2; induction H1; simpl; try constructor; assumption.
Qed.

Lemma invoked_app (l1 l2 : list (Obs State Action Data)) :
  invoked (l1 ++ l2) = invoked l1 ++ invoked l2.
Proof.
  induction l1 as [|o l1 IH]; [reflexivity|].
  destruct o; simpl; rewrite ?IH; reflexivity.
Qed.

(** One step: what it takes from the head of the queue, and the handler
    calls it logs, which are calls on what it took. *)
Lemma step_history (e : Event Action Data) (m m' : Manager) :
  step states e m = Some m' ->
  exists took called,
    actionQueue m ++ pushed [e] = took ++ actionQueue m'
    /\ invoked (log m') = invoked (log m) ++ called
    /\ subseq called took.
Proof.
  intros Hs; destruct m as [cur queue st cb qp n ws l];
    destruct e; open_methods.
  all: repeat split_hyp; open_eqs; simpl in *; rewrite ?app_nil_r;
    rewrite ?invoked_app; simpl.
  all: try (exists [], []; simpl; rewrite ?app_nil_r; repeat split;
            solve [reflexivity | constructor]).
  all: try (exists [q], [q]; simpl; repeat split;
            solve [reflexivity | repeat constructor]).
  all: exists [q], []; simpl; rewrite ?app_nil_r; repeat split;
    solve [reflexivity | repeat constructor].
Qed.

Lemma run_history (es : list (Event Action Data)) (m m' : Manager) :
  run states es m = Some m' ->
  exists took called,
    actionQueue m ++ pushed es = took ++ actionQueue m'
    /\ invoked (log m') = invoked (log m) ++ called
    /\ subseq called took.
Proof.
  revert m; induction es as [|e es IH]; intros m Hrun.
  - simpl in Hrun; injection Hrun as <-.
    exists [], []; rewrite !app_nil_r; repeat split; constructor.
  - simpl in Hrun; destruct (step states e m) as [m1|] eqn:E; [|discriminate].
    destruct (step_history e m E) as (t1 & c1 & Hq1 & Hl1 & Hs1).
    destruct (IH m1 Hrun) as (t2 & c2 & Hq2 & Hl2 & Hs2).
    exists (t1 ++ t2), (c1 ++ c2); repeat split.
    + change (e :: es) with ([e] ++ es).
      rewrite pushed_app, app_assoc, Hq1, <- !app_assoc, Hq2; reflexivity.
    + rewrite Hl2, Hl1, <- app_assoc; reflexivity.
    + apply subseq_app; assumption.
Qed.

(** X6. The queue is always what is left of the push history after some
    first part of it was taken: actions enter at the tail only and leave
    from the head only, so none is reordered, duplicated or put back. *)
Theorem queue_is_rest_of_pushed
        (s0 : State) (es : list (Event Action Data)) (m : Manager) :
  run states es (new Action Data s0) = Some m ->
  exists took, pushed es = took ++ actionQueue m.
Proof.
  intros Hrun; destruct (run_history es _ Hrun) as (took & _ & Hq & _).
  exists took; exact Hq.
Qed.

(** X7. Handlers are called in push order: the actions on which handlers
    have been called, in the order of the calls, are the actions taken off
    the queue so far with some of them left out (those that had no handler
    when they were taken). *)
Theorem handlers_called_in_push_order
        (s0 : State) (es : list (Event Action Data)) (m : Manager) :
  run states es (new Action Data s0) = Some m ->
  exists took,
    pushed es = took ++ actionQueue m
    /\ subseq (invoked (log m)) took.
Proof.
  intros Hrun; destruct (run_history es _ Hrun) as (took & called & Hq & Hl & Hs).
  exists took; split; [exact Hq|]. simpl in Hl; rewrite Hl; exact Hs.
Qed.

(** *** How many timer callbacks pushes schedule *)

Lemma pushes_arm (qs : list (QueuedAction Action Data)) (m : Manager) :
  queuedProcessing m = None ->
  exists m',
    run states (map (fun q => EvPush (action q) (data q)) qs) m = Some m'
    /\ actionQueue m' = actionQueue m ++ qs
    /\ currentState m' = currentState m
    /\ status m' = status m
    /\ timeouts m'
       = timeouts m + (if status_eqb (status m) RUNNING then length qs else 0)
    /\ awaiting m' = awaiting m
    /\ log m' = log m.
Proof.
  revert m; induction qs as [|[a d] qs IH]; intros m Hq; simpl.
  - exists m; rewrite app_nil_r.
    destruct (status_eqb (status m) RUNNING); repeat split; auto.
  - destruct m as [cur queue st cb qp n ws l]; simpl in *; subst.
    unfold pushAction; simpl.
    destruct (status_eqb st RUNNING) eqn:Est; simpl.
    + destruct (IH (mkManager cur (queue ++ [mkQueued a d]) st cb None (S n) ws l)
                   eq_refl) as (m' & Hrun & Hqu & Hc & Hs & Ht & Hw & Hl).
      exists m'; simpl in *; rewrite Est in Ht.
      rewrite Hqu, <- app_assoc; repeat split; auto; lia.
    + destruct (IH (mkManager cur (queue ++ [mkQueued a d]) st cb None n ws l)
                   eq_refl) as (m' & Hrun & Hqu & Hc & Hs & Ht & Hw & Hl).
      exists m'; simpl in *; rewrite Est in Ht.
      rewrite Hqu, <- app_assoc; repeat split; auto.
Qed.

(** X8. Any number of pushes in a row succeed and append in push order
    without touching the current state or the status. Each push made while
    RUNNING schedules a timer callback of its own; pushes made while STOPPED
    or STOP_PENDING schedule none. *)
Theorem pushes_schedule_when_running
        (qs : list (QueuedAction Action Data)) (m : Manager) :
  reachable states m ->
  exists m',
    run states (map (fun q => EvPush (action q) (data q)) qs) m = Some m'
    /\ actionQueue m' = actionQueue m ++ qs
    /\ currentState m' = currentState m
    /\ status m' = status m
    /\ timeouts m'
       = timeouts m + (if status_eqb (status m) RUNNING then length qs else 0)
    /\ awaiting m' = awaiting m
    /\ log m' = log m.
Proof.
  intros Hr; exact (pushes_arm qs m (reachable_queuedProcessing Hr)).
Qed.

(** *** A pending stop *)

Lemma step_keeps_pending_stop (k : nat) (e : Event Action Data) (m m' : Manager) :
  not_stop_nor_timeout e = true ->
  status m = STOP_PENDING ->
  stopCallback m = Some k ->
  step states e m = Some m' ->
  status m' = STOP_PENDING
  /\ stopCallback m' = Some k
  /\ timeouts m <= timeouts m'.
Proof.
  intros He Hst Hcb Hs; destruct m as [cur queue st cb qp n ws l];
    destruct e; try discriminate; open_methods; subst.
  all: repeat split_hyp; open_eqs; simpl in *; repeat split;
    try reflexivity; try discriminate; lia.
Qed.

(** X9. [stop] always gets through. After [stop()] on a reachable manager,
    and whatever is pushed, started or resumed since, a timer callback is
    pending, the status is STOP_PENDING and this call's callback is the one
    stored; and the next timer callback to run sets STOPPED and invokes
    exactly this call's callback, leaving current state and queue alone: a
    [start] made in between does not cancel the stop. *)
Theorem stop_honoured_by_next_callback
        (k : nat) (es : list (Event Action Data)) (m m1 : Manager) :
  reachable states m ->
  forallb (@not_stop_nor_timeout Action Data) es = true ->
  run states es (stop k m) = Some m1 ->
  0 < timeouts m1
  /\ status m1 = STOP_PENDING
  /\ stopCallback m1 = Some k
  /\ forall m2 : Manager,
      step states EvTimeout m1 = Some m2 ->
      status m2 = STOPPED
      /\ log m2 = log m1 ++ [StopResolved k]
      /\ stopCallback m2 = None
      /\ currentState m2 = currentState m1
      /\ actionQueue m2 = actionQueue m1.
Proof.
  intros Hr Hall Hrun.
  assert (Hgen : forall es m0 m',
             forallb (@not_stop_nor_timeout Action Data) es = true ->
             status m0 = STOP_PENDING -> stopCallback m0 = Some k ->
             run states es m0 = Some m' ->
             status m' = STOP_PENDING /\ stopCallback m' = Some k
             /\ timeouts m0 <= timeouts m').
  { clear; intros es; induction es as [|e es IH]; intros m0 m' Hall Hst Hcb Hrun.
    - simpl in Hrun; injection Hrun as <-; auto.
    - simpl in Hall; apply andb_true_iff in Hall; destruct Hall as [He Hall].
      simpl in Hrun; destruct (step states e m0) as [m3|] eqn:E; [|discriminate].
      destruct (@step_keeps_pending_stop k e m0 m3 He Hst Hcb E) as (Hst' & Hcb' & Hle).
      destruct (IH m3 m' Hall Hst' Hcb' Hrun) as (? & ? & ?).
      repeat split; auto; lia. }
  pose proof (reachable_queuedProcessing Hr) as Hq.
  destruct (Hgen es (stop k m) m1 Hall) as (Hst1 & Hcb1 & Hle); auto.
  { destruct m as [cur queue st cb qp n ws l]; simpl in *; subst; reflexivity. }
  { destruct m as [cur queue st cb qp n ws l]; simpl in *; subst; reflexivity. }
  assert (Hpos : 0 < timeouts m1).
  { destruct m as [cur queue st cb qp n ws l]; simpl in *; subst; simpl in *; lia. }
  split; [exact Hpos|]. split; [exact Hst1|]. split; [exact Hcb1|].
  intros m2 Hs.
  destruct m1 as [cur1 queue1 st1 cb1 qp1 n1 ws1 l1]; open_methods; subst.
  destruct n1; [discriminate|].
  destruct (existsb _ _); [discriminate|].
  injection Hs as <-; simpl; repeat split; reflexivity.
Qed.

(** *** Accounting for handler calls *)

Lemma count_snoc {X : Type} (p : X -> bool) (l : list X) (x : X) :
  count p (l ++ [x]) = count p l + (if p x then 1 else 0).
Proof.
  unfold count; rewrite filter_app, length_app; simpl.
  destruct (p x); reflexivity.
Qed.

Lemma count_drop_nth {X : Type} (p : X -> bool) (i : nat) (l : list X) (x : X) :
  nth_error l i = Some x ->
  count p (drop_nth i l) + (if p x then 1 else 0) = count p l.
Proof.
  revert i; induction l as [|y l IH]; intros [|i] H; simpl in *; try discriminate.
  - injection H as ->; unfold count; simpl; destruct (p x); simpl; lia.
  - specialize (IH i H); unfold count in *; simpl; destruct (p y); simpl; lia.
Qed.

Lemma count_put_nth {X : Type} (p : X -> bool) (i : nat) (l : list X) (x y : X) :
  nth_error l i = Some x ->
  count p (put_nth i y l) + (if p x then 1 else 0)
  = count p l + (if p y then 1 else 0).
Proof.
  revert i; induction l as [|z l IH]; intros [|i] H; simpl in *; try discriminate.
  - injection H as ->; unfold count; simpl; destruct (p x), (p y); simpl; lia.
  - specialize (IH i H); unfold count in *; simpl; destruct (p z); simpl; lia.
Qed.

Lemma step_accounts (e : Event Action Data) (m m' : Manager) :
  count (@is_invoked State Action Data) (log m)
  = count (@is_adopted State Action Data) (log m)
    + count (@is_unhandled State Action Data) (log m)
    + count (@unsettled State) (awaiting m) ->
  step states e m = Some m' ->
  count (@is_invoked State Action Data) (log m')
  = count (@is_adopted State Action Data) (log m')
    + count (@is_unhandled State Action Data) (log m')
    + count (@unsettled State) (awaiting m').
Proof.
  intros Hinv Hs; destruct m as [cur queue st cb qp n ws l]; simpl in *.
  destruct e as [a d| |k| |i].
  - open_methods; repeat split_hyp; open_eqs; simpl; exact Hinv.
  - open_methods; repeat split_hyp; open_eqs; simpl; exact Hinv.
  - open_methods; repeat split_hyp; open_eqs; simpl; exact Hinv.
  - open_methods; repeat split_hyp; open_eqs; simpl;
      rewrite ?count_snoc; simpl; lia.
  - unfold step, resume in Hs; simpl in Hs.
    destruct (nth_error ws i) as [w|] eqn:E; [|discriminate].
    destruct w as [t [s|]|[|]]; injection Hs as <-; simpl.
    + pose proof (count_put_nth (@unsettled State) i ws (AwaitProcess true) E).
      rewrite !count_snoc; simpl in *; lia.
    + pose proof (count_put_nth (@unsettled State) i ws (AwaitProcess false) E).
      simpl in *; lia.
    + pose proof (count_drop_nth (@unsettled State) i ws E).
      destruct queue; simpl; [|destruct qp; simpl]; simpl in *; lia.
    + pose proof (count_drop_nth (@unsettled State) i ws E).
      rewrite !count_snoc; simpl in *; lia.
Qed.

(** X10. Every handler call is accounted for. At any time the number of
    handler calls made equals the number of results assigned to the current
    state, plus the number of failures surfaced as a rejected timer
    callback, plus the calls still waiting behind a parked function: no
    call is dropped, and no failure is swallowed. *)
Theorem handler_calls_accounted
        (s0 : State) (es : list (Event Action Data)) (m : Manager) :
  run states es (new Action Data s0) = Some m ->
  count (@is_invoked State Action Data) (log m)
  = count (@is_adopted State Action Data) (log m)
    + count (@is_unhandled State Action Data) (log m)
    + count (@unsettled State) (awaiting m).
Proof.
  assert (Hr : reachable states m -> count (@is_invoked State Action Data) (log m)
  = count (@is_adopted State Action Data) (log m)
    + count (@is_unhandled State Action Data) (log m)
    + count (@unsettled State) (awaiting m)).
  { revert m.
    apply (@reachable_induction
             (fun m => count (@is_invoked State Action Data) (log m)
                       = count (@is_adopted State Action Data) (log m)
                         + count (@is_unhandled State Action Data) (log m)
                         + count (@unsettled State) (awaiting m))).
    - reflexivity.
    - intros e m m' _ IH Hs; exact (step_accounts e m IH Hs). }
  intros Hrun; apply Hr; exists s0, es; exact Hrun.
Qed.

(** *** Draining *)

Lemma Forall_drop_nth {X : Type} (P : X -> Prop) (i : nat) (l : list X) :
  Forall P l -> Forall P (drop_nth i l).
Proof.
  intros H; revert i; induction H as [|x l Hx Hl IH]; intros [|i]; simpl;
    try constructor; auto.
Qed.

Lemma Forall_put_nth {X : Type} (P : X -> Prop) (i : nat) (y : X) (l : list X) :
  P y -> Forall P l -> Forall P (put_nth i y l).
Proof.
  intros Hy H; revert i; induction H as [|x l Hx Hl IH]; intros [|i]; simpl;
    try constructor; auto.
Qed.

Lemma length_put_nth {X : Type} (i : nat) (y : X) (l : list X) :
  length (put_nth i y l) = length l.
Proof.
  revert i; induction l as [|x l IH]; intros [|i]; simpl; auto.
Qed.

Lemma Forall_nth_error {X : Type} (P : X -> Prop) (i : nat) (l : list X) (x : X) :
  Forall P l -> nth_error l i = Some x -> P x.
Proof.
  intros H E; apply nth_error_In in E; rewrite Forall_forall in H; auto.
Qed.

Lemma step_backlog (e : Event Action Data) (m m' : Manager) :
  never_fails states ->
  queuedProcessing m = None ->
  Forall (fun w => failing w = false) (awaiting m) ->
  (status m = RUNNING -> actionQueue m <> [] ->
   0 < timeouts m + length (awaiting m)) ->
  step states e m = Some m' ->
  Forall (fun w => failing w = false) (awaiting m')
  /\ (status m' = RUNNING -> actionQueue m' <> [] ->
      0 < timeouts m' + length (awaiting m')).
Proof.
  intros Hnf Hq Hall Hinv Hs; destruct m as [cur queue st cb qp n ws l];
    simpl in *; subst.
  destruct e as [a d| |k| |i].
  - open_methods; repeat split_hyp; open_eqs; simpl; split; auto;
      try (intros; lia).
    intros ->; discriminate.
  - open_methods; repeat split_hyp; open_eqs; simpl; split; auto;
      intros; lia.
  - open_methods; open_eqs; simpl; split; auto; intros; discriminate.
  - unfold step in Hs; simpl in Hs.
    destruct n; [discriminate|].
    destruct (existsb _ _); [discriminate|].
    injection Hs as <-; unfold tick; simpl.
    destruct (status_eqb st STOP_PENDING) eqn:Est; simpl.
    + destruct cb; simpl; split; auto; intros; discriminate.
    + unfold process; simpl.
      destruct queue as [|q rest]; simpl.
      * split; [|intros _ H; contradiction].
        apply Forall_app; split; auto.
      * destruct (states cur (action q)) as [h|] eqn:Eh; simpl.
        -- specialize (Hnf cur (action q) h (data q) Eh).
           destruct (h (data q)) as [|t [s|]]; simpl in *; try discriminate.
           split; [|intros; rewrite length_app; simpl; lia].
           apply Forall_app; split; auto.
        -- split; [|intros; rewrite length_app; simpl; lia].
           apply Forall_app; split; auto.
  - unfold step, resume in Hs; simpl in Hs.
    destruct (nth_error ws i) as [w|] eqn:E; [|discriminate].
    pose proof (Forall_nth_error _ Hall E) as Hw.
    destruct w as [t [s|]|[|]]; simpl in Hw; try discriminate;
      injection Hs as <-; simpl.
    + split; [apply Forall_put_nth; auto|].
      rewrite length_put_nth.
      assert (i < length ws) by (apply nth_error_Some; rewrite E; discriminate).
      intros; lia.
    + destruct queue as [|q rest]; simpl.
      * split; [apply Forall_drop_nth; auto | intros _ H; contradiction].
      * split; [apply Forall_drop_nth; auto | intros; lia].
Qed.

(** X11. With handlers that never fail, a RUNNING manager is never left
    with a backlog and nothing to drain it: whenever the queue is
    non-empty, a timer callback is pending or a function is parked, which
    re-arms one when it resumes. *)
Theorem backlog_never_stranded (m : Manager) :
  never_fails states ->
  reachable states m ->
  status m = RUNNING ->
  actionQueue m <> [] ->
  0 < timeouts m + length (awaiting m).
Proof.
  intros Hnf Hr.
  assert (H : queuedProcessing m = None
              /\ Forall (fun w => failing w = false) (awaiting m)
              /\ (status m = RUNNING -> actionQueue m <> [] ->
                  0 < timeouts m + length (awaiting m))).
  { revert m Hr.
    apply (@reachable_induction
             (fun m => queuedProcessing m = None
                       /\ Forall (fun w => failing w = false) (awaiting m)
                       /\ (status m = RUNNING -> actionQueue m <> [] ->
                           0 < timeouts m + length (awaiting m)))).
    - intros s0; simpl; repeat split; auto; discriminate.
    - intros e m m' _ (Hq & Hall & Hinv) Hs.
      split; [exact (step_queuedProcessing e m Hq Hs)|].
      exact (step_backlog e m Hnf Hq Hall Hinv Hs). }
  destruct H as (_ & _ & H); exact H.
Qed.

(** *** Stopping a table whose handlers never wait for a later macrotask *)

(** X12. With handlers that never wait for a later macrotask, a stop is
    honoured only between actions: when the timer callback resolves the
    stop nothing is parked and no handler is in flight, and the current
    state is the one reached by the actions taken so far, in push order. *)
Theorem synchronous_stop_settles
        (s0 : State) (es : list (Event Action Data)) (m m' : Manager) :
  synchronous states ->
  run states es (new Action Data s0) = Some m ->
  status m = STOP_PENDING ->
  step states EvTimeout m = Some m' ->
  status m' = STOPPED
  /\ awaiting m' = []
  /\ handlers_in_flight m' = 0
  /\ apply_in_order states (getCurrentState m') (actionQueue m')
     = apply_in_order states s0 (pushed es).
Proof.
  intros Hsync Hrun Hst Hs.
  destruct (@run_in_order es (new Action Data s0) m Hsync (or_introl eq_refl) Hrun)
    as [Hser Heq].
  unfold settling, serialized, handlers_in_flight, getCurrentState in *.
  destruct m as [cur queue st cb qp n ws l]; simpl in *; subst.
  destruct n; [discriminate|].
  destruct Hser as [-> | (w & -> & Hw)]; simpl in Hs.
  - injection Hs as <-; unfold tick; simpl.
    destruct cb; simpl; repeat split; auto.
  - rewrite Hw in Hs; discriminate.
Qed.

End Properties.

(** ** From the boolean [running] to the status enumeration *)

Section Refactoring.

Variables State Action Data : Type.
Variable states : StateMap State Action Data.

Local Abbreviation Manager := (StateManager State Action Data).

Lemma step_as_previous (e : Event Action Data) (m : Manager) :
  (status m = STOP_PENDING -> stopCallback m <> None) ->
  (status m <> STOP_PENDING -> stopCallback m = None) ->
  (is_start e = true -> status m = STOPPED) ->
  Previous.step states e (as_previous m)
  = option_map (@as_previous State Action Data) (step states e m).
Proof.
  intros Hset Hclear Hstart.
  destruct m as [cur queue st cb qp n ws l]; simpl in *.
  destruct e as [a d| |k| |i].
  - destruct st, qp; reflexivity.
  - rewrite (Hstart eq_refl); destruct qp; reflexivity.
  - destruct qp; reflexivity.
  - unfold Previous.step, step, as_previous; simpl.
    destruct n; [reflexivity|].
    destruct (existsb _ ws); [reflexivity|].
    unfold Previous.tick, tick, Previous.process, process; simpl.
    destruct st; simpl.
    + rewrite Hclear by discriminate.
      destruct queue as [|q rest]; simpl; [reflexivity|].
      destruct (states cur (action q)) as [h|]; simpl; [|reflexivity].
      destruct (h (data q)); reflexivity.
    + rewrite Hclear by discriminate.
      destruct queue as [|q rest]; simpl; [reflexivity|].
      destruct (states cur (action q)) as [h|]; simpl; [|reflexivity].
      destruct (h (data q)); reflexivity.
    + destruct cb as [k|]; [reflexivity|].
      exfalso; exact (Hset eq_refl eq_refl).
  - unfold Previous.step, step, Previous.resume, resume, as_previous; simpl.
    destruct (nth_error ws i) as [[t [s|]|[|]]|]; simpl; try reflexivity.
    destruct queue; simpl; [reflexivity|].
    destruct qp; reflexivity.
Qed.

(** X15. The change from the boolean [running] to the status enumeration
    alters behaviour only where [start] is called on a manager that is not
    STOPPED: on every run in which each [start] finds the status STOPPED the
    two versions of the class go through the same steps, with the same
    current state, queue, stored callback, pending callbacks, parked
    functions and observations, [running] being "the status is RUNNING". *)
Theorem versions_agree_on_guarded_starts
        (s0 : State) (es : list (Event Action Data)) :
  starts_when_stopped states es (new Action Data s0) = true ->
  Previous.run states es (Previous.new Action Data s0)
  = option_map (@as_previous State Action Data)
               (run states es (new Action Data s0)).
Proof.
  assert (Hgen : forall es (m : Manager),
             (status m = STOP_PENDING -> stopCallback m <> None) ->
             (status m <> STOP_PENDING -> stopCallback m = None) ->
             starts_when_stopped states es m = true ->
             Previous.run states es (as_previous m)
             = option_map (@as_previous State Action Data) (run states es m)).
  { clear; intros es; induction es as [|e es IH]; intros m Hset Hclear Hg.
    - reflexivity.
    - simpl in Hg; apply andb_true_iff in Hg; destruct Hg as [He Hg].
      simpl. rewrite (step_as_previous e m Hset Hclear).
      + destruct (step states e m) as [m'|] eqn:E; simpl; [|reflexivity].
        apply IH; [| |exact Hg].
        * exact (step_keeps_callback states e m Hset E).
        * exact (step_callback_needs_stop_pending states e m Hclear E).
      + intros Hs; rewrite Hs in He; simpl in He.
        apply status_eqb_eq; exact He. }
  intros Hg.
  apply (Hgen es (new Action Data s0)); [discriminate | reflexivity | exact Hg].
Qed.

(** X16. In the earlier class a [start] made between [stop] and the timer
    callback that honours it wins: the callback still resolves the stop,
    but the manager is left running, with queue and current state as they
    were. *)
Theorem previous_start_overrides_stop
        (k : nat) (m m' : Previous.StateManager State Action Data) :
  Previous.run states [EvStop k; EvStart; EvTimeout] m = Some m' ->
  Previous.running m' = true
  /\ Previous.stopCallback m' = None
  /\ Previous.log m' = Previous.log m ++ [StopResolved k]
  /\ Previous.currentState m' = Previous.currentState m
  /\ Previous.actionQueue m' = Previous.actionQueue m
  /\ Previous.awaiting m' = Previous.awaiting m.
Proof.
  intros Hrun; destruct m as [cur queue r cb qp n ws l].
  unfold Previous.run, Previous.step, Previous.stop, Previous.start,
    Previous.queueProcessing in Hrun; simpl in Hrun.
  destruct qp as [h|]; simpl in Hrun.
  - destruct n; [discriminate|].
    destruct (existsb _ ws); [discriminate|].
    injection Hrun as <-; simpl; repeat split; reflexivity.
  - destruct (existsb _ ws); [discriminate|].
    injection Hrun as <-; simpl; repeat split; reflexivity.
Qed.

End Refactoring.

(** ** The code run on the three-state machine *)

Section Runs.

Import Demo.

Local Abbreviation fresh := (new actions unit S1).
Local Abbreviation queued a := (mkQueued (a : actions) tt).

(** The repository's own test, on [S1: {A1: () => S2}, S2: {}]:
    [start(); sleep; await stop()] leaves S1, and then
    [start(); pushAction(A1); sleep; await stop()] leaves S2. *)
Example repository_test :
  exists m1 m2 : runner,
    run quick_table [EvStart; EvTimeout; EvResume 0; EvStop 1; EvTimeout] fresh
    = Some m1
    /\ status m1 = STOPPED
    /\ log m1 = [StopResolved 1]
    /\ getCurrentState m1 = S1
    /\ run quick_table
           [EvStart; push A1; EvTimeout; EvResume 0; EvResume 0;
            EvTimeout; EvResume 0; EvStop 2; EvTimeout] m1 = Some m2
    /\ status m2 = STOPPED
    /\ timeouts m2 = 0
    /\ log m2 = [StopResolved 1; Invoked S1 (queued A1); Adopted S2;
                 StopResolved 2]
    /\ getCurrentState m2 = S2.
Proof.
  eexists; eexists; split; [vm_compute; reflexivity|].
  do 3 (split; [reflexivity|]).
  split; [vm_compute; reflexivity|].
  repeat split; reflexivity.
Qed.

(** C1. [start(); pushAction(A1); pushAction(A2)] on the table whose A1
    handler awaits I/O: the second timer callback takes A2 off the queue
    while A1's handler is still suspended, looks it up in S1, finds no
    handler and drops it. The runner comes to rest in S2, whereas taking
    A1 and then A2 to completion in push order ends in S3. *)
Theorem fifo_lost_with_suspended_handler :
  exists m : runner,
    run slow_table
        [EvStart; push A1; push A2;
         EvTimeout; EvTimeout; EvResume 1; EvTimeout; EvResume 1;
         EvResume 0; EvResume 0] fresh = Some m
    /\ status m = RUNNING
    /\ actionQueue m = []
    /\ timeouts m = 0
    /\ awaiting m = []
    /\ log m = [Invoked S1 (queued A1); Adopted S2]
    /\ getCurrentState m = S2
    /\ apply_in_order slow_table S1 [queued A1; queued A2] = S3.
Proof.
  eexists; split; [vm_compute; reflexivity|].
  repeat split; reflexivity.
Qed.

(** C2. [start(); pushAction(A1); pushAction(A2)] leaves three timer
    callbacks pending at once, and after two of them have run both
    handlers have been called and neither has completed. *)
Theorem overlapping_steps_and_handlers :
  exists m1 m2 : runner,
    run overlap_table [EvStart; push A1; push A2] fresh = Some m1
    /\ queuedProcessing m1 = None
    /\ timeouts m1 = 3
    /\ run overlap_table [EvTimeout; EvTimeout] m1 = Some m2
    /\ handlers_in_flight m2 = 2
    /\ awaiting m2 = [AwaitTransition Macrotask (Fulfilled S2);
                      AwaitTransition Macrotask (Fulfilled S3)]
    /\ log m2 = [Invoked S1 (queued A1); Invoked S1 (queued A2)].
Proof.
  eexists; eexists; split; [vm_compute; reflexivity|].
  split; [reflexivity|]. split; [reflexivity|].
  split; [vm_compute; reflexivity|].
  repeat split; reflexivity.
Qed.

(** C3. [start(); stop(); stop()] with every pending callback then run:
    the runner is STOPPED with nothing left to do, the second call's
    callback has been invoked and the first call's has not. *)
Theorem second_stop_drops_first_callback :
  exists m : runner,
    run quick_table
        [EvStart; EvStop 1; EvStop 2;
         EvTimeout; EvTimeout; EvResume 0; EvTimeout; EvResume 0] fresh
    = Some m
    /\ status m = STOPPED
    /\ stopCallback m = None
    /\ timeouts m = 0
    /\ awaiting m = []
    /\ log m = [StopResolved 2].
Proof.
  eexists; split; [vm_compute; reflexivity|].
  repeat split; reflexivity.
Qed.

(** C4. [start(); pushAction(A1)], the timer callbacks run and leave A1's
    handler awaiting I/O, then [stop()]: its callback is invoked on the
    next timer callback, with the current state still S1 and the handler
    still suspended; S2 is adopted only afterwards. *)
Theorem stop_resolves_before_adoption :
  exists m1 m2 : runner,
    run slow_table
        [EvStart; push A1; EvTimeout; EvTimeout; EvResume 1;
         EvStop 1; EvTimeout] fresh = Some m1
    /\ status m1 = STOPPED
    /\ log m1 = [Invoked S1 (queued A1); StopResolved 1]
    /\ handlers_in_flight m1 = 1
    /\ getCurrentState m1 = S1
    /\ run slow_table [EvResume 0] m1 = Some m2
    /\ getCurrentState m2 = S2
    /\ log m2 = [Invoked S1 (queued A1); StopResolved 1; Adopted S2].
Proof.
  eexists; eexists; split; [vm_compute; reflexivity|].
  repeat split; reflexivity.
Qed.

(** C5. [start(); stop(); pushAction(A1)], then the timer callbacks run.
    The first finds STOP_PENDING and does what is asked of it: STOPPED, the
    stop callback invoked and cleared, queue and current state untouched,
    A1 still buffered. But the callback armed by [stop] is still pending: it
    runs with status STOPPED and processes the buffered A1. The action does
    not wait for a future [start]: a later [start] finds the queue empty
    and the state already S2. *)
Theorem buffered_action_taken_after_stop :
  exists m1 m2 m3 : runner,
    run quick_table [EvStart; EvStop 7; push A1] fresh = Some m1
    /\ status m1 = STOP_PENDING
    /\ actionQueue m1 = [queued A1]
    /\ run quick_table [EvTimeout] m1 = Some m2
    /\ status m2 = STOPPED
    /\ stopCallback m2 = None
    /\ log m2 = [StopResolved 7]
    /\ actionQueue m2 = [queued A1]
    /\ getCurrentState m2 = S1
    /\ timeouts m2 = 1
    /\ run quick_table [EvTimeout; EvResume 0; EvResume 0] m2 = Some m3
    /\ status m3 = STOPPED
    /\ actionQueue m3 = []
    /\ getCurrentState m3 = S2
    /\ log m3 = [StopResolved 7; Invoked S1 (queued A1); Adopted S2]
    /\ actionQueue (start m3) = []
    /\ getCurrentState (start m3) = S2.
Proof.
  eexists; eexists; eexists; split; [vm_compute; reflexivity|].
  do 2 (split; [reflexivity|]).
  split; [vm_compute; reflexivity|].
  do 6 (split; [reflexivity|]).
  split; [vm_compute; reflexivity|].
  repeat split; reflexivity.
Qed.

(** C7. [start(); stop()], the stop honoured, then [pushAction(A1)] on the
    STOPPED runner: the timer callback that [stop] armed is still pending,
    runs with status STOPPED and processes A1. The current state becomes
    S2 although [start] was not called again. *)
Theorem push_while_stopped_processed :
  exists m1 m2 m3 : runner,
    run quick_table [EvStart; EvStop 1; EvTimeout] fresh = Some m1
    /\ status m1 = STOPPED
    /\ log m1 = [StopResolved 1]
    /\ run quick_table [push A1] m1 = Some m2
    /\ status m2 = STOPPED
    /\ getCurrentState m2 = S1
    /\ actionQueue m2 = [queued A1]
    /\ run quick_table [EvTimeout; EvResume 0; EvResume 0] m2 = Some m3
    /\ status m3 = STOPPED
    /\ getCurrentState m3 = S2
    /\ log m3 = [StopResolved 1; Invoked S1 (queued A1); Adopted S2].
Proof.
  eexists; eexists; eexists; split; [vm_compute; reflexivity|].
  do 2 (split; [reflexivity|]).
  split; [vm_compute; reflexivity|].
  do 3 (split; [reflexivity|]).
  split; [vm_compute; reflexivity|].
  repeat split; reflexivity.
Qed.

(** C8 as written fails: [stop()] on a freshly built runner takes the
    status from STOPPED to STOP_PENDING, an edge the list does not have. *)
Lemma stop_while_stopped_not_documented :
  reachable quick_table fresh
  /\ status fresh = STOPPED
  /\ exists m' : runner,
      step quick_table (EvStop 0) fresh = Some m'
      /\ status m' = STOP_PENDING
      /\ documented_edge (EvStop 0 : Event actions unit)
                         (status fresh) (status m') = false.
Proof.
  split; [exists S1, []; reflexivity|].
  split; [reflexivity|].
  eexists; split; [reflexivity|].
  split; reflexivity.
Qed.

(** *** The general theorems at concrete runs *)

Lemma stop_pending_has_callback_witness :
  let m : runner := stop 7 (start fresh) in
  reachable quick_table m
  /\ (status m = STOP_PENDING -> exists k, stopCallback m = Some k)
  /\ ~ In CalledUndefined (log m).
Proof.
  intros m.
  assert (Hr : reachable quick_table m)
    by (exists S1, [EvStart; EvStop 7]; reflexivity).
  split; [exact Hr | exact (stop_pending_has_callback Hr)].
Defined.

Lemma stop_pending_tick_frame_witness :
  let m : runner := pushAction A1 tt (stop 7 (start fresh)) in
  let m' : runner := tick quick_table (set_timeouts 1 m) in
  reachable quick_table m
  /\ status m = STOP_PENDING
  /\ step quick_table EvTimeout m = Some m'
  /\ status m' = STOPPED
  /\ (exists k, stopCallback m = Some k /\ log m' = log m ++ [StopResolved k])
  /\ stopCallback m' = None
  /\ actionQueue m' = [queued A1]
  /\ currentState m' = S1
  /\ awaiting m' = [].
Proof.
  intros m m'.
  assert (Hr : reachable quick_table m)
    by (exists S1, [EvStart; EvStop 7; push A1]; reflexivity).
  split; [exact Hr|]. split; [reflexivity|]. split; [reflexivity|].
  exact (@stop_pending_tick_frame _ _ _ quick_table m m' Hr eq_refl eq_refl).
Defined.

Lemma unregistered_action_discarded_witness :
  let m : runner := pushAction A1 tt (pushAction A2 tt (start fresh)) in
  let m' : runner := tick quick_table (set_timeouts 2 m) in
  status m <> STOP_PENDING
  /\ actionQueue m = [queued A2; queued A1]
  /\ quick_table (currentState m) A2 = None
  /\ step quick_table EvTimeout m = Some m'
  /\ process quick_table m
     = (set_actionQueue [queued A1] m, AwaitProcess true)
  /\ currentState m' = S1
  /\ actionQueue m' = [queued A1]
  /\ log m' = []
  /\ status m' = RUNNING
  /\ awaiting m' = [AwaitProcess true].
Proof.
  intros m m'.
  assert (Hst : status m <> STOP_PENDING) by discriminate.
  split; [exact Hst|]. do 3 (split; [reflexivity|]).
  exact (@unregistered_action_discarded _ _ _ quick_table m m'
           (queued A2) [queued A1] Hst eq_refl eq_refl eq_refl).
Defined.

Lemma failed_handler_keeps_state_witness :
  let m : runner := pushAction A1 tt (start fresh) in
  let m' : runner := tick failing_table (set_timeouts 1 m) in
  let m'' : runner :=
    observe UnhandledRejection (set_awaiting [] m') in
  (status m <> STOP_PENDING
   /\ actionQueue m = [queued A1]
   /\ fails (Throws : Outcome states) = true
   /\ step failing_table EvTimeout m = Some m'
   /\ currentState m' = S1
   /\ actionQueue m' = []
   /\ status m' = RUNNING
   /\ timeouts m' = 1
   /\ log m' = [Invoked S1 (queued A1)]
   /\ exists w, awaiting m' = [w] /\ failing w = true)
  /\ (nth_error (awaiting m') 0 = Some (AwaitProcess false)
      /\ step failing_table (EvResume 0) m' = Some m''
      /\ currentState m'' = S1
      /\ actionQueue m'' = []
      /\ status m'' = RUNNING
      /\ timeouts m'' = 1
      /\ (log m'' = log m' \/ log m'' = log m' ++ [UnhandledRejection])
      /\ (awaiting m'' = put_nth 0 (AwaitProcess false) (awaiting m')
          \/ awaiting m'' = drop_nth 0 (awaiting m'))).
Proof.
  intros m m' m''.
  assert (Hst : status m <> STOP_PENDING) by discriminate.
  split.
  - split; [exact Hst|]. do 3 (split; [reflexivity|]).
    exact (proj1 (failed_handler_keeps_state failing_table)
                 m m' (queued A1) [] (fun _ => Throws)
                 Hst eq_refl eq_refl eq_refl eq_refl).
  - do 2 (split; [reflexivity|]).
    exact (proj2 (failed_handler_keeps_state failing_table)
                 m' m'' 0 (AwaitProcess false) eq_refl eq_refl eq_refl).
Defined.

Lemma lifecycle_edges_witness :
  let m : runner := fresh in
  let m' : runner := stop 0 m in
  step quick_table (EvStop 0) m = Some m'
  /\ lifecycle_edge (EvStop 0 : Event actions unit) STOPPED STOP_PENDING = true
  /\ (is_start (EvStop 0 : Event actions unit) = true ->
      status m <> STOPPED -> m' = m).
Proof.
  intros m m'; split; [reflexivity|].
  exact (@lifecycle_edges _ _ _ quick_table (EvStop 0) m m' eq_refl).
Defined.

(** *** The further properties at concrete runs *)

Lemma quick_table_synchronous : synchronous quick_table.
Proof.
  intros s a h d H; destruct s, a; simpl in H; try discriminate;
    injection H as <-; reflexivity.
Qed.

Lemma quick_table_never_fails : never_fails quick_table.
Proof.
  intros s a h d H; destruct s, a; simpl in H; try discriminate;
    injection H as <-; reflexivity.
Qed.

Lemma never_started_stays_initial_witness :
  let es := [push A1; push A2] in
  let m : runner := pushAction A2 tt (pushAction A1 tt fresh) in
  forallb (@not_lifecycle actions unit) es = true
  /\ run quick_table es fresh = Some m
  /\ getCurrentState m = S1
  /\ actionQueue m = pushed es
  /\ status m = STOPPED
  /\ idle m
  /\ log m = [].
Proof.
  intros es m.
  split; [reflexivity|]. split; [reflexivity|].
  exact (@never_started_stays_initial _ _ _ quick_table S1 es m eq_refl eq_refl).
Defined.

Lemma guard_never_set_witness :
  let m : runner := pushAction A1 tt (start fresh) in
  reachable quick_table m
  /\ queuedProcessing m = None
  /\ queueProcessing m = set_timeouts 3 m.
Proof.
  intros m.
  assert (Hr : reachable quick_table m)
    by (exists S1, [EvStart; push A1]; reflexivity).
  split; [exact Hr | exact (guard_never_set Hr)].
Defined.

Lemma callback_only_while_stop_pending_witness :
  let m : runner := tick quick_table (set_timeouts 1 (stop 7 (start fresh))) in
  reachable quick_table m
  /\ status m <> STOP_PENDING
  /\ stopCallback m = None.
Proof.
  intros m.
  assert (Hr : reachable quick_table m)
    by (exists S1, [EvStart; EvStop 7; EvTimeout]; reflexivity).
  assert (Hst : status m <> STOP_PENDING) by discriminate.
  split; [exact Hr|]. split; [exact Hst|].
  exact (callback_only_while_stop_pending Hr Hst).
Defined.

Lemma current_state_is_last_adopted_witness :
  let es := [EvStart; push A1; EvTimeout; EvResume 0] in
  let m : runner :=
    mkManager S2 [] RUNNING None None 1 [AwaitProcess true]
              [Invoked S1 (queued A1); Adopted S2] in
  run quick_table es fresh = Some m
  /\ getCurrentState m = last_adopted S1 (log m).
Proof.
  intros es m.
  split; [reflexivity|].
  exact (@current_state_is_last_adopted _ _ _ quick_table S1 es m eq_refl).
Defined.

Lemma queue_is_rest_of_pushed_witness :
  let es := [EvStart; push A1; push A2; EvTimeout] in
  let m : runner :=
    mkManager S1 [queued A2] RUNNING None None 2
              [AwaitTransition Microtask (Fulfilled S2)]
              [Invoked S1 (queued A1)] in
  run quick_table es fresh = Some m
  /\ exists took, pushed es = took ++ actionQueue m.
Proof.
  intros es m.
  split; [reflexivity|].
  exact (@queue_is_rest_of_pushed _ _ _ quick_table S1 es m eq_refl).
Defined.

Lemma handlers_called_in_push_order_witness :
  let es := [EvStart; push A2; push A1; EvTimeout; EvResume 0; EvTimeout] in
  let m : runner :=
    mkManager S1 [] RUNNING None None 2
              [AwaitTransition Microtask (Fulfilled S2)]
              [Invoked S1 (queued A1)] in
  run quick_table es fresh = Some m
  /\ exists took,
      pushed es = took ++ actionQueue m
      /\ subseq (invoked (log m)) took.
Proof.
  intros es m.
  split; [reflexivity|].
  exact (@handlers_called_in_push_order _ _ _ quick_table S1 es m eq_refl).
Defined.

Lemma pushes_schedule_when_running_witness :
  let m : runner := start fresh in
  let qs := [queued A1; queued A2] in
  reachable quick_table m
  /\ exists m',
      run quick_table (map (fun q => EvPush (action q) (data q)) qs) m = Some m'
      /\ actionQueue m' = actionQueue m ++ qs
      /\ currentState m' = currentState m
      /\ status m' = status m
      /\ timeouts m'
         = timeouts m + (if status_eqb (status m) RUNNING then length qs else 0)
      /\ awaiting m' = awaiting m
      /\ log m' = log m.
Proof.
  intros m qs.
  assert (Hr : reachable quick_table m) by (exists S1, [EvStart]; reflexivity).
  split; [exact Hr | exact (pushes_schedule_when_running qs Hr)].
Defined.

Lemma stop_honoured_by_next_callback_witness :
  let m : runner := start fresh in
  let es := [push A1; EvStart] in
  let m1 : runner := start (pushAction A1 tt (stop 7 m)) in
  let m2 : runner := tick quick_table (set_timeouts 1 m1) in
  reachable quick_table m
  /\ forallb (@not_stop_nor_timeout actions unit) es = true
  /\ run quick_table es (stop 7 m) = Some m1
  /\ 0 < timeouts m1
  /\ status m1 = STOP_PENDING
  /\ stopCallback m1 = Some 7
  /\ step quick_table EvTimeout m1 = Some m2
  /\ status m2 = STOPPED
  /\ log m2 = log m1 ++ [StopResolved 7]
  /\ stopCallback m2 = None
  /\ currentState m2 = currentState m1
  /\ actionQueue m2 = actionQueue m1.
Proof.
  intros m es m1 m2.
  assert (Hr : reachable quick_table m) by (exists S1, [EvStart]; reflexivity).
  destruct (@stop_honoured_by_next_callback _ _ _ quick_table 7 es m m1
              Hr eq_refl eq_refl) as (Hpos & Hst & Hcb & Hnext).
  split; [exact Hr|]. do 2 (split; [reflexivity|]).
  split; [exact Hpos|]. split; [exact Hst|]. split; [exact Hcb|].
  split; [reflexivity|].
  exact (Hnext m2 eq_refl).
Defined.

Lemma handler_calls_accounted_witness :
  let es := [EvStart; push A1; push A1; EvTimeout; EvResume 0; EvTimeout] in
  let m : runner :=
    mkManager S1 [] RUNNING None None 1 [AwaitProcess false]
              [Invoked S1 (queued A1); UnhandledRejection;
               Invoked S1 (queued A1)] in
  run failing_table es fresh = Some m
  /\ count (@is_invoked states actions unit) (log m)
     = count (@is_adopted states actions unit) (log m)
       + count (@is_unhandled states actions unit) (log m)
       + count (@unsettled states) (awaiting m).
Proof.
  intros es m.
  assert (Hrun : run failing_table es fresh = Some m).
  2: { split; [exact Hrun|].
       exact (@handler_calls_accounted _ _ _ failing_table S1 es m Hrun). }
  vm_compute. reflexivity.
Defined.

Lemma backlog_never_stranded_witness :
  let m : runner := pushAction A2 tt (pushAction A1 tt (start fresh)) in
  never_fails quick_table
  /\ reachable quick_table m
  /\ status m = RUNNING
  /\ actionQueue m <> []
  /\ 0 < timeouts m + length (awaiting m).
Proof.
  intros m.
  assert (Hr : reachable quick_table m)
    by (exists S1, [EvStart; push A1; push A2]; reflexivity).
  assert (Hq : actionQueue m <> []) by discriminate.
  split; [exact quick_table_never_fails|]. split; [exact Hr|].
  split; [reflexivity|]. split; [exact Hq|].
  exact (backlog_never_stranded quick_table_never_fails Hr eq_refl Hq).
Defined.

Lemma synchronous_stop_settles_witness :
  let es := [EvStart; push A1; push A2; EvTimeout; EvResume 0; EvResume 0;
             EvStop 7] in
  let m : runner :=
    mkManager S2 [queued A2] STOP_PENDING (Some 7) None 4 []
              [Invoked S1 (queued A1); Adopted S2] in
  let m' : runner := tick quick_table (set_timeouts 3 m) in
  synchronous quick_table
  /\ run quick_table es fresh = Some m
  /\ status m = STOP_PENDING
  /\ step quick_table EvTimeout m = Some m'
  /\ status m' = STOPPED
  /\ awaiting m' = []
  /\ handlers_in_flight m' = 0
  /\ apply_in_order quick_table (getCurrentState m') (actionQueue m')
     = apply_in_order quick_table S1 (pushed es).
Proof.
  intros es m m'.
  split; [exact quick_table_synchronous|]. do 3 (split; [reflexivity|]).
  exact (@synchronous_stop_settles _ _ _ quick_table S1 es m m'
           quick_table_synchronous eq_refl eq_refl eq_refl).
Defined.

Lemma overwritten_callback_dropped_witness :
  let es := [EvTimeout; EvStart; push A1; EvTimeout; EvResume 0] in
  let m : runner := start fresh in
  let m' : runner :=
    mkManager S2 [] RUNNING None None 3 [AwaitProcess true]
              [StopResolved 2; Invoked S1 (queued A1); Adopted S2] in
  1 <> 2
  /\ ~ In (StopResolved 1) (log m)
  /\ Forall (fun e : Event actions unit => e <> EvStop 1) es
  /\ run quick_table es (stop 2 (stop 1 m)) = Some m'
  /\ ~ In (StopResolved 1) (log m').
Proof.
  intros es m m'.
  assert (Hk : 1 <> 2) by discriminate.
  assert (Hlog : ~ In (StopResolved 1) (log m)) by (intros []).
  assert (Hes : Forall (fun e : Event actions unit => e <> EvStop 1) es)
    by (repeat constructor; discriminate).
  assert (Hrun : run quick_table es (stop 2 (stop 1 m)) = Some m')
    by reflexivity.
  do 4 (split; [assumption|]).
  exact (@overwritten_callback_dropped _ _ _ quick_table 1 2 es m m'
           Hk Hlog Hes Hrun).
Defined.

Lemma synchronous_fifo_witness :
  let es := [EvStart; push A1; push A2; EvTimeout; EvResume 0; EvResume 0;
             EvTimeout; EvResume 0; EvResume 0] in
  let m : runner :=
    mkManager S3 [] RUNNING None None 2 []
              [Invoked S1 (queued A1); Adopted S2;
               Invoked S2 (queued A2); Adopted S3] in
  synchronous quick_table
  /\ run quick_table es fresh = Some m
  /\ handlers_in_flight m <= 1
  /\ (actionQueue m = [] -> awaiting m = [] ->
      getCurrentState m = apply_in_order quick_table S1 (pushed es)).
Proof.
  intros es m.
  split; [exact quick_table_synchronous|]. split; [reflexivity|].
  exact (@synchronous_fifo _ _ _ quick_table S1 es m
           quick_table_synchronous eq_refl).
Defined.

Lemma versions_agree_on_guarded_starts_witness :
  let es := [EvStart; EvTimeout; EvResume 0; EvStop 1; EvTimeout;
             EvStart; push A1; EvTimeout; EvResume 0; EvResume 0;
             EvTimeout; EvResume 0; EvStop 2; EvTimeout] in
  starts_when_stopped quick_table es fresh = true
  /\ Previous.run quick_table es (Previous.new actions unit S1)
     = option_map (@as_previous states actions unit)
                  (run quick_table es fresh).
Proof.
  intros es.
  assert (Hg : starts_when_stopped quick_table es fresh = true) by reflexivity.
  split; [exact Hg | exact (versions_agree_on_guarded_starts quick_table S1 es Hg)].
Defined.

Lemma previous_start_overrides_stop_witness :
  let m := Previous.new actions unit S1 in
  let m' :=
    Previous.mkManager S1 (@nil (QueuedAction actions unit)) true None None 1
                       (@nil (Awaiting states))
                       [@StopResolved states actions unit 7] in
  Previous.run quick_table [EvStop 7; EvStart; EvTimeout] m = Some m'
  /\ Previous.running m' = true
  /\ Previous.stopCallback m' = None
  /\ Previous.log m' = Previous.log m ++ [StopResolved 7]
  /\ Previous.currentState m' = Previous.currentState m
  /\ Previous.actionQueue m' = Previous.actionQueue m
  /\ Previous.awaiting m' = Previous.awaiting m.
Proof.
  intros m m'.
  split; [reflexivity|].
  exact (@previous_start_overrides_stop _ _ _ quick_table 7 m m' eq_refl).
Defined.

End Runs.
